(** * The simulated HAL Notifier: alarm objects, the blocking wait, the
      wake-up barrier and the simulator's introspection calls.

    The development embeds [hal/src/main/native/sim/Notifier.cpp].  Every
    function of that file is a Rocq function on an explicit machine state
    [Hal]: the heap of [Notifier] objects (shared through [shared_ptr], so a
    waiter keeps its object after the handle is freed), the handle table,
    the paused flag and the clock.  Blocking calls are cut at their blocking
    points into program counters and a step function; other threads act
    between two steps.  A stretch of code that runs under the object's mutex
    is one atomic step. *)

From Stdlib Require Import ZArith Lia.
From stdpp Require Import base numbers option list strings pretty gmap.

Local Open Scope Z_scope.

(** ** Machine integers and constants *)

Definition UINT64_MAX : Z := 2 ^ 64 - 1.
Definition INT16_MAX : Z := 32767.

(** [++x] on a [uint64_t]. *)
Definition incr64 (x : Z) : Z := (x + 1) mod 2 ^ 64.

(** Declared in [hal/Types.h] and [hal/Errors.h]. *)
Definition HAL_kInvalidHandle : Z := 0.
Definition HAL_HANDLE_ERROR : Z := -1098.

(** ** The Notifier object (lines 29-37) *)

Record Notifier := mkNotifier {
  name : string;
  waitTime : Z;
  active : bool;
  running : bool;
  count : Z
}.

(** [std::make_shared<Notifier>()]: value initialisation zeroes [waitTime],
    then the default member initialisers apply. *)
Definition make_shared_Notifier : Notifier :=
  {| name := ""; waitTime := 0; active := true; running := false; count := 0 |}.

Definition set_name (s : string) (n : Notifier) : Notifier :=
  {| name := s; waitTime := waitTime n; active := active n;
     running := running n; count := count n |}.
Definition set_waitTime (t : Z) (n : Notifier) : Notifier :=
  {| name := name n; waitTime := t; active := active n;
     running := running n; count := count n |}.
Definition set_active (b : bool) (n : Notifier) : Notifier :=
  {| name := name n; waitTime := waitTime n; active := b;
     running := running n; count := count n |}.
Definition set_running (b : bool) (n : Notifier) : Notifier :=
  {| name := name n; waitTime := waitTime n; active := active n;
     running := b; count := count n |}.
Definition set_count (c : Z) (n : Notifier) : Notifier :=
  {| name := name n; waitTime := waitTime n; active := active n;
     running := running n; count := c |}.

(** ** Synchronisation events

    What a call does to mutexes and condition variables, in program order.
    [r] is the address of a Notifier object. *)

Inductive Duration :=
  | Seconds1000                 (* waitTime = 1000.0 *)
  | MicrosUntil (us : Z).       (* (notifier->waitTime - curTime) * 1e-6 *)

Inductive Sync :=
  | Lock (r : nat)
  | Unlock (r : nat)
  | NotifyAll (r : nat)           (* notifier->cond.notify_all() *)
  | WaitFor (r : nat) (d : Duration)
  | LockWaiter                    (* notifiersWaiterMutex *)
  | UnlockWaiter
  | NotifyAllWaiter.              (* notifiersWaiterCond.notify_all() *)

(** ** Machine state *)

Record Hal := mkHal {
  heap : list Notifier;               (* objects, by address *)
  notifierHandles : list (option nat);  (* slot table: index -> object *)
  notifiersPaused : bool;
  fpgaTime : Z                        (* what HAL_GetFPGATime returns now *)
}.

Definition with_heap (f : list Notifier → list Notifier) (st : Hal) : Hal :=
  {| heap := f (heap st); notifierHandles := notifierHandles st;
     notifiersPaused := notifiersPaused st; fpgaTime := fpgaTime st |}.
Definition with_handles (f : list (option nat) → list (option nat)) (st : Hal) : Hal :=
  {| heap := heap st; notifierHandles := f (notifierHandles st);
     notifiersPaused := notifiersPaused st; fpgaTime := fpgaTime st |}.
Definition with_paused (b : bool) (st : Hal) : Hal :=
  {| heap := heap st; notifierHandles := notifierHandles st;
     notifiersPaused := b; fpgaTime := fpgaTime st |}.
Definition with_time (t : Z) (st : Hal) : Hal :=
  {| heap := heap st; notifierHandles := notifierHandles st;
     notifiersPaused := notifiersPaused st; fpgaTime := t |}.

(** A write through a [Notifier*]. *)
Definition modify (r : nat) (f : Notifier → Notifier) (st : Hal) : Hal :=
  with_heap (alter f r) st.

(** Modelled from the spec: the time source, an external collaborator that
    returns the current controller time in microseconds.  It is taken not
    to write the status. *)
Definition HAL_GetFPGATime (st : Hal) : Z := fpgaTime st.

(** ** The handle registry

    [UnlimitedHandleResource] and the handle codec of [hal/handles] are not
    among the sources.  The spec gives a table from opaque integer handles
    to shared objects with allocate, lookup, free and an iteration over the
    registered objects, where allocation fails once no handle slot is left.
    Here the table is a growing vector of slots, and a handle carries its
    slot index in the low 16 bits under a fixed type tag. *)

(** Modelled from the spec: the type tag of a Notifier handle, a constant of
    the absent handle codec; any non-zero tag above bit 16 would do. *)
Definition notifierHandleTag : Z := 3 * 2 ^ 24.

(** Modelled from the spec: [createHandle] of the absent codec, the opaque
    integer handle of slot [i]. *)
Definition createHandle (i : nat) : Z := notifierHandleTag + Z.of_nat i.

(** Modelled from the spec: [getHandleIndex] of the absent codec, the low 16
    bits of the handle read as an [int16_t]. *)
Definition getHandleIndex (h : Z) : Z :=
  let lo := Z.land h 65535 in
  if lo <? 32768 then lo else lo - 65536.

(** Modelled from the spec: [getHandleTypedIndex] of the absent codec, the
    slot number when the tag is the Notifier tag. *)
Definition getHandleTypedIndex (h : Z) : option nat :=
  if (Z.shiftr h 16 =? Z.shiftr notifierHandleTag 16) && (0 <=? getHandleIndex h)
  then Some (Z.to_nat (getHandleIndex h)) else None.

(** Modelled from the spec: [UnlimitedHandleResource::Get], the lookup;
    [None] for a handle that names no registered object. *)
Definition Get (h : Z) (st : Hal) : option nat :=
  i ← getHandleTypedIndex h; o ← notifierHandles st !! i; o.

(** Modelled from the spec: [UnlimitedHandleResource::Free], which removes
    the mapping and hands the reference to the caller. *)
Definition Free (h : Z) (st : Hal) : option nat * Hal :=
  match getHandleTypedIndex h with
  | Some i =>
      match notifierHandles st !! i with
      | Some o => (o, with_handles (<[i := None]>) st)
      | None => (None, st)
      end
  | None => (None, st)
  end.

(** Modelled from the spec: the search for a free handle slot inside
    [UnlimitedHandleResource::Allocate]. *)
Fixpoint first_free (slots : list (option nat)) : option nat :=
  match slots with
  | [] => None
  | None :: _ => Some 0%nat
  | Some _ :: rest => S <$> first_free rest
  end.

(** Modelled from the spec: [UnlimitedHandleResource::Allocate], the first
    empty slot, else a new slot at the end, else the invalid handle once no
    handle slot is left. *)
Definition Allocate (r : nat) (slots : list (option nat)) : Z * list (option nat) :=
  match first_free slots with
  | Some i => (createHandle i, <[i := Some r]> slots)
  | None =>
      if INT16_MAX <=? Z.of_nat (length slots) then (HAL_kInvalidHandle, slots)
      else (createHandle (length slots), slots ++ [Some r])
  end.

(** Modelled from the spec: what [UnlimitedHandleResource::ForEach] visits,
    the registered objects, here in slot order: handle and object address. *)
Definition entries (st : Hal) : list (Z * nat) :=
  omap id (imap (λ i o, (λ r, (createHandle i, r)) <$> o) (notifierHandles st)).

(** The same with the object read through its address. *)
Definition visited (st : Hal) : list (Z * nat * Notifier) :=
  omap (λ hr : Z * nat, (λ n, (hr, n)) <$> heap st !! hr.2) (entries st).

(** ** Results of a call *)

Record Res (A : Type) := mkRes {
  ret : A;
  post : Hal;
  status_out : Z;          (* the value behind [int32_t* status] afterwards *)
  syncs : list Sync
}.
Arguments mkRes {A} _ _ _ _.
Arguments ret {A} _.
Arguments post {A} _.
Arguments status_out {A} _.
Arguments syncs {A} _.

(** The characters a C routine sees in a string: those before the first
    NUL.  It is what [name = cstring] stores and what [c_str()] shows. *)
Fixpoint c_str (s : string) : string :=
  match s with
  | EmptyString => EmptyString
  | String c rest => if decide (c = Ascii.zero) then EmptyString else String c (c_str rest)
  end.

(** ** Creation, naming, stop and free (lines 125-167) *)

Definition HAL_InitializeNotifier (st : Hal) (status : Z) : Res Z :=
  let notifier := length (heap st) in
  let '(handle, slots) := Allocate notifier (notifierHandles st) in
  if handle =? HAL_kInvalidHandle then
    mkRes HAL_kInvalidHandle st HAL_HANDLE_ERROR []
  else
    mkRes handle
      (with_handles (λ _, slots) (with_heap (λ hp, hp ++ [make_shared_Notifier]) st))
      status [].

Definition HAL_SetNotifierName (notifierHandle : Z) (s : string)
    (st : Hal) (status : Z) : Res unit :=
  match Get notifierHandle st with
  | None => mkRes () st status []
  | Some r => mkRes () (modify r (set_name (c_str s)) st) status [Lock r; Unlock r]
  end.

(** The block shared by stop, free and the container's destructor. *)
Definition deactivate (n : Notifier) : Notifier :=
  set_running false (set_active false n).

Definition HAL_StopNotifier (notifierHandle : Z) (st : Hal) (status : Z) : Res unit :=
  match Get notifierHandle st with
  | None => mkRes () st status []
  | Some r =>
      mkRes () (modify r deactivate st) status [Lock r; Unlock r; NotifyAll r]
  end.

Definition HAL_CleanNotifier (notifierHandle : Z) (st : Hal) (status : Z) : Res unit :=
  match Free notifierHandle st with
  | (None, _) => mkRes () st status []
  | (Some r, st1) =>
      mkRes () (modify r deactivate st1) status [Lock r; Unlock r; NotifyAll r]
  end.

(** [~NotifierHandleContainer] (lines 49-59).  It has no status argument:
    the result is the state and the events. *)
Definition destroy_container (st : Hal) : Hal * list Sync :=
  (foldl (λ s hr, modify hr.2 deactivate s) st (entries st),
   concat ((λ hr : Z * nat, [Lock hr.2; Unlock hr.2; NotifyAll hr.2]) <$> entries st)
     ++ [NotifyAllWaiter]).

(** ** Arming and cancelling (lines 169-193) *)

Definition HAL_UpdateNotifierAlarm (notifierHandle : Z) (triggerTime : Z)
    (st : Hal) (status : Z) : Res unit :=
  match Get notifierHandle st with
  | None => mkRes () st status []
  | Some r =>
      mkRes ()
        (modify r (λ n, set_running (negb (triggerTime =? UINT64_MAX))
                          (set_waitTime triggerTime n)) st)
        status [Lock r; Unlock r; NotifyAll r]
  end.

Definition HAL_CancelNotifierAlarm (notifierHandle : Z) (st : Hal) (status : Z) : Res unit :=
  match Get notifierHandle st with
  | None => mkRes () st status []
  | Some r => mkRes () (modify r (set_running false) st) status [Lock r; Unlock r]
  end.

(** ** Pause, resume, wake-up (lines 73-84) *)

Definition WakeupNotifiers (st : Hal) : Hal * list Sync :=
  (st, (λ hr : Z * nat, NotifyAll hr.2) <$> entries st).

Definition PauseNotifiers (st : Hal) : Hal * list Sync :=
  (with_paused true st, []).

Definition ResumeNotifiers (st : Hal) : Hal * list Sync :=
  WakeupNotifiers (with_paused false st).

(** ** The blocking wait (lines 195-223)

    A call is at one of four places.  [AtGet]: about to look the handle up.
    [AtLock]: holds the object, about to take the two mutexes.  [InWaitFor]:
    blocked in [cond.wait_for], the object's mutex released.  [Done]: it has
    returned. *)

Inductive Pc :=
  | AtGet (notifierHandle : Z)
  | AtLock (r : nat)
  | InWaitFor (r : nat) (d : Duration)
  | Done (v : Z).

(** Lines 205-221, from the loop test to the next [wait_for] or [return],
    all of it under the object's mutex. *)
Definition wait_loop (r : nat) (n : Notifier) (st : Hal) (status : Z) : Res Pc :=
  if active n then
    let curTime := HAL_GetFPGATime st in
    if running n && (waitTime n <=? curTime) then
      mkRes (Done curTime) (modify r (set_running false) st) status [Unlock r]
    else
      let d := if negb (running n) || notifiersPaused st then Seconds1000
               else MicrosUntil ((waitTime n - curTime) mod 2 ^ 64) in
      mkRes (InWaitFor r d) st status [WaitFor r d]
  else mkRes (Done 0) st status [Unlock r].

(** One step of the call; [None] when the call has returned (or the address
    is not an object, which no handle ever yields). *)
Definition wait_step (pc : Pc) (st : Hal) (status : Z) : option (Res Pc) :=
  match pc with
  | AtGet h =>
      match Get h st with
      | None => Some (mkRes (Done 0) st status [])
      | Some r => Some (mkRes (AtLock r) st status [])
      end
  | AtLock r =>
      n ← heap st !! r;
      let n1 := set_count (incr64 (count n)) n in
      let res := wait_loop r n1 (modify r (λ _, n1) st) status in
      Some (mkRes (ret res) (post res) (status_out res)
              ([LockWaiter; Lock r; UnlockWaiter; NotifyAllWaiter] ++ syncs res))
  | InWaitFor r d =>
      n ← heap st !! r;
      Some (wait_loop r n st status)
  | Done _ => None
  end.

(** ** The simulator's queries (lines 225-265) *)

Definition HALSIM_GetNextNotifierTimeout (st : Hal) : Z :=
  foldl (λ timeout (e : Z * nat * Notifier),
           if active e.2 && running e.2 && (waitTime e.2 <? timeout)
           then waitTime e.2 else timeout)
        UINT64_MAX (visited st).

Definition HALSIM_GetNumNotifiers (st : Hal) : Z :=
  foldl (λ cnt (e : Z * nat * Notifier), if active e.2 then cnt + 1 else cnt)
        0 (visited st).

(** One element of the caller's [HALSIM_NotifierInfo] array. *)
Module NotifierInfo.
Record t := mk {
  handle : Z;
  name : string;
  timeout : Z;
  running : bool
}.
End NotifierInfo.

Fixpoint string_take (k : nat) (s : string) : string :=
  match k, s with
  | S k', String c rest => String c (string_take k' rest)
  | _, _ => EmptyString
  end.

(** What ends up in the [name] field, a [char] array of [nameSize] bytes
    ([nameSize] is [sizeof(arr[num].name)], fixed by a header that is not
    among the sources): [snprintf] and [strncpy] followed by the forced
    terminator both keep at most [nameSize - 1] characters. *)
Definition resolved_name (nameSize : nat) (handle : Z) (n : Notifier) : string :=
  if decide (name n = "") then
    string_take (nameSize - 1) ("Notifier" +:+ pretty (getHandleIndex handle))
  else
    string_take (nameSize - 1) (c_str (name n)).

Definition info_of (nameSize : nat) (handle : Z) (n : Notifier) : NotifierInfo.t :=
  {| NotifierInfo.handle := handle;
     NotifierInfo.name := resolved_name nameSize handle n;
     NotifierInfo.timeout := waitTime n;
     NotifierInfo.running := running n |}.

(** The array is the memory behind [arr], cell by cell, so that a write at
    any index shows.  [num] cannot overflow: the table has fewer than
    [INT16_MAX] slots. *)
Definition HALSIM_GetNotifierInfo (nameSize : nat)
    (arr : gmap Z NotifierInfo.t) (size : Z) (st : Hal)
    : gmap Z NotifierInfo.t * Z :=
  foldl (λ (acc : gmap Z NotifierInfo.t * Z) (e : Z * nat * Notifier),
           if negb (active e.2) then acc
           else ((if acc.2 <? size
                  then <[acc.2 := info_of nameSize e.1.1 e.2]> acc.1
                  else acc.1),
                 acc.2 + 1))
        (arr, 0) (visited st).

(** ** The wake-up barrier (lines 86-120) *)

(** Lines 91-100: the pairs put in [waiters]. *)
Definition due (curTime : Z) (n : Notifier) : bool :=
  running n && ((count n =? 0) || (waitTime n <=? curTime)).

Definition collect_waiters (st : Hal) : list (Z * Z) :=
  let curTime := HAL_GetFPGATime st in
  omap (λ e : Z * nat * Notifier,
          if due curTime e.2 then Some (e.1.1, count e.2) else None)
       (visited st).

Definition collect_syncs (st : Hal) : list Sync :=
  let curTime := HAL_GetFPGATime st in
  concat ((λ e : Z * nat * Notifier,
             if due curTime e.2 then [Lock e.1.2; NotifyAll e.1.2; Unlock e.1.2]
             else [Lock e.1.2; Unlock e.1.2]) <$> visited st).

(** Lines 106-111: the entry is still waited for. *)
Definition still_pending (st : Hal) (it : Z * Z) : bool :=
  match Get it.1 st with
  | Some r =>
      match heap st !! r with
      | Some n => active n && (count n =? it.2)
      | None => false
      end
  | None => false
  end.

Definition swap_at (i j : nat) (l : list (Z * Z)) : list (Z * Z) :=
  match l !! i, l !! j with
  | Some x, Some y => <[j := x]> (<[i := y]> l)
  | _, _ => l
  end.

(** Lines 104-115: the [while (count < end)] loop.  Each round either
    advances [cnt] or lowers [last], so [last - cnt] rounds suffice. *)
Fixpoint partition_pending (fuel : nat) (st : Hal) (waiters : list (Z * Z))
    (cnt last : nat) : list (Z * Z) * nat :=
  match fuel with
  | O => (waiters, cnt)
  | S fuel' =>
      if decide (cnt < last)%nat then
        match waiters !! cnt with
        | Some it =>
            if still_pending st it
            then partition_pending fuel' st waiters (S cnt) last
            else partition_pending fuel' st (swap_at cnt (pred last) waiters)
                   cnt (pred last)
        | None => (waiters, cnt)
        end
      else (waiters, cnt)
  end.

(** The barrier is either blocked at line 118 with its shortened vector or
    has returned. *)
Inductive BarrierPc :=
  | BWaitFor (waiters : list (Z * Z))
  | BDone.

(** Lines 102-118: one round of the [for (;;)] loop. *)
Definition barrier_round (st : Hal) (waiters : list (Z * Z)) : BarrierPc :=
  let '(waiters', cnt) :=
    partition_pending (length waiters) st waiters 0 (length waiters) in
  if decide (cnt = 0%nat) then BDone else BWaitFor (take cnt waiters').

(** Lines 87-118, up to the first [wait_for] or the [break]. *)
Definition WakeupWaitNotifiers_begin (st : Hal) : BarrierPc * list Sync :=
  (barrier_round st (collect_waiters st), LockWaiter :: collect_syncs st).

(** ** Other threads

    What can happen between two steps of a blocked call: any exposed
    operation, a step of another wait call, the teardown, the clock moving
    forward. *)

Inductive Call :=
  | CInitialize
  | CSetName (h : Z) (s : string)
  | CStop (h : Z)
  | CClean (h : Z)
  | CUpdate (h : Z) (triggerTime : Z)
  | CCancel (h : Z)
  | CPause
  | CResume
  | CWakeup
  | CDestroy
  | CWaitStep (pc : Pc)
  | CClock (t : Z).

Definition run_call (c : Call) (st : Hal) : Hal :=
  match c with
  | CInitialize => post (HAL_InitializeNotifier st 0)
  | CSetName h s => post (HAL_SetNotifierName h s st 0)
  | CStop h => post (HAL_StopNotifier h st 0)
  | CClean h => post (HAL_CleanNotifier h st 0)
  | CUpdate h t => post (HAL_UpdateNotifierAlarm h t st 0)
  | CCancel h => post (HAL_CancelNotifierAlarm h st 0)
  | CPause => (PauseNotifiers st).1
  | CResume => (ResumeNotifiers st).1
  | CWakeup => (WakeupNotifiers st).1
  | CDestroy => (destroy_container st).1
  | CWaitStep pc => from_option post st (wait_step pc st 0)
  | CClock t => with_time (Z.max (fpgaTime st) t) st
  end.

Definition run_calls (cs : list Call) (st : Hal) : Hal :=
  foldl (λ s c, run_call c s) st cs.

(** A configuration of one wait call: the machine, the place in the call,
    the caller's status variable. *)
Definition Config : Type := Hal * Pc * Z.

(** Executions of one wait call among other threads.  The history lists the
    call's own steps, latest first, each with the state it started from. *)
Inductive wait_exec (c0 : Config) : list (Hal * Pc) → Config → Prop :=
  | wait_exec_start : wait_exec c0 [] c0
  | wait_exec_other hist st pc status c :
      wait_exec c0 hist (st, pc, status) →
      wait_exec c0 hist (run_call c st, pc, status)
  | wait_exec_own hist st pc status res :
      wait_exec c0 hist (st, pc, status) →
      wait_step pc st status = Some res →
      wait_exec c0 ((st, pc) :: hist) (post res, ret res, status_out res).

(** Executions of the barrier started in [st0]: the history lists the states
    in which a round of the loop ran, latest first. *)
Inductive barrier_exec (st0 : Hal) : list Hal → Hal * BarrierPc → Prop :=
  | barrier_exec_start :
      barrier_exec st0 [st0] (st0, (WakeupWaitNotifiers_begin st0).1)
  | barrier_exec_other hist st pc c :
      barrier_exec st0 hist (st, pc) →
      barrier_exec st0 hist (run_call c st, pc)
  | barrier_exec_own hist st waiters :
      barrier_exec st0 hist (st, BWaitFor waiters) →
      barrier_exec st0 (st :: hist) (st, barrier_round st waiters).

(** The loop iteration that starts in [st] at [pc] finds the alarm armed and
    due: line 207 holds (after the loop test of line 205). *)
Definition fires (st : Hal) (pc : Pc) : Prop :=
  match pc with
  | AtLock r | InWaitFor r _ =>
      ∃ n, heap st !! r = Some n ∧ active n = true ∧ running n = true
           ∧ waitTime n ≤ fpgaTime st
  | _ => False
  end.

(** The loop test of line 205 fails. *)
Definition finds_inactive (st : Hal) (pc : Pc) : Prop :=
  match pc with
  | AtLock r | InWaitFor r _ =>
      ∃ n, heap st !! r = Some n ∧ active n = false
  | _ => False
  end.

(** Values a [uint64_t] field can hold. *)
Definition uint64 (z : Z) : Prop := 0 ≤ z ≤ UINT64_MAX.

(** Every stored deadline is a [uint64_t]. *)
Definition deadlines_fit (st : Hal) : Prop :=
  Forall (λ n, uint64 (waitTime n)) (heap st).

(** Every object the table refers to is in the heap. *)
Definition refs_valid (st : Hal) : Prop :=
  ∀ (i r : nat), notifierHandles st !! i = Some (Some r) → (r < length (heap st))%nat.

(** The argument of the call has the type the signature gives it. *)
Definition call_typed (c : Call) : Prop :=
  match c with
  | CUpdate _ t => uint64 t
  | _ => True
  end.

(** ** Notions used in the statements *)

(** [h] names the object at address [r], whose contents are [n]. *)
Definition registered (st : Hal) (h : Z) (r : nat) (n : Notifier) : Prop :=
  ∃ i : nat, notifierHandles st !! i = Some (Some r)
             ∧ h = createHandle i ∧ heap st !! r = Some n.

(** The visited objects that are alive, in slot order. *)
Definition live (st : Hal) : list (Z * nat * Notifier) :=
  filter (λ e : Z * nat * Notifier, active e.2 = true) (visited st).

(** The call is the step of a wait call that takes the mutexes of the
    object at [r] (lines 200-204). *)
Definition begins_wait (c : Call) (r : nat) : bool :=
  match c with
  | CWaitStep (AtLock r') => bool_decide (r' = r)
  | _ => false
  end.

Definition waits_begun (cs : list Call) (r : nat) : nat :=
  length (filter (λ c, begins_wait c r = true) cs).

(** The object a step of the call works on. *)
Definition pc_object (pc : Pc) : option nat :=
  match pc with
  | AtLock r | InWaitFor r _ => Some r
  | _ => None
  end.

(** The object as the loop sees it: the entry step has counted the wait. *)
Definition entered (pc : Pc) (n : Notifier) : Notifier :=
  match pc with
  | AtLock _ => set_count (incr64 (count n)) n
  | _ => n
  end.

(** The sleep chosen at lines 212-218. *)
Definition chosen_sleep (st : Hal) (n : Notifier) : Duration :=
  if negb (running n) || notifiersPaused st then Seconds1000
  else MicrosUntil ((waitTime n - fpgaTime st) mod 2 ^ 64).

Definition is_lock (pc : Pc) : bool :=
  match pc with AtLock _ => true | _ => false end.

(** How many times the call has run lines 200-204. *)
Definition lock_steps (hist : list (Hal * Pc)) : nat :=
  length (filter (λ sp : Hal * Pc, is_lock sp.2 = true) hist).

(** What the history of a call on handle [h] looks like at each place: the
    lookup comes first, the entry step follows a successful lookup, and only
    wake-ups come after it. *)
Definition shape (h : Z) (hist : list (Hal * Pc)) (pc : Pc) : Prop :=
  match pc with
  | AtGet h' => h' = h ∧ hist = []
  | AtLock r => ∃ s, hist = [(s, AtGet h)] ∧ Get h s = Some r
  | InWaitFor r _ =>
      ∃ s, last hist = Some (s, AtGet h) ∧ Get h s = Some r ∧ lock_steps hist = 1%nat
  | Done v =>
      ∃ s, last hist = Some (s, AtGet h)
           ∧ ((Get h s = None ∧ hist = [(s, AtGet h)] ∧ v = 0)
              ∨ (is_Some (Get h s) ∧ lock_steps hist = 1%nat))
  end.

(** A call that has not returned has not seen its alarm armed and due. *)
Definition quiet (hist : list (Hal * Pc)) (pc : Pc) : Prop :=
  match pc with
  | Done _ => True
  | _ => Forall (λ sp : Hal * Pc, ¬ fires sp.1 sp.2) hist
  end.

(** What the barrier's vector holds while it is blocked, and what its
    return means. *)
Definition barrier_inv (st0 : Hal) (hist : list Hal) (pc : BarrierPc) : Prop :=
  match pc with
  | BWaitFor ws =>
      ws ≠ []
      ∧ ∀ it, it ∈ ws ↔ it ∈ collect_waiters st0
                        ∧ ∀ s, s ∈ hist → still_pending s it = true
  | BDone =>
      ∀ it, it ∈ collect_waiters st0 → ∃ s, s ∈ hist ∧ still_pending s it = false
  end.

(** ** Readings of the specification that the code does not bear out *)

(** Every filled entry of the snapshot carries the object's name, or
    ["Notifier<index>"] when the name is empty. *)
Definition snapshot_carries_names (nameSize : nat)
    (arr : gmap Z NotifierInfo.t) (size : Z) (st : Hal) : Prop :=
  ∀ (j : nat) h r n,
    live st !! j = Some (h, r, n) → Z.of_nat j < size →
    ∃ e, (HALSIM_GetNotifierInfo nameSize arr size st).1 !! Z.of_nat j = Some e
         ∧ NotifierInfo.handle e = h
         ∧ NotifierInfo.timeout e = waitTime n
         ∧ NotifierInfo.running e = running n
         ∧ NotifierInfo.name e
           = if decide (name n = "")
             then "Notifier" +:+ pretty (getHandleIndex h) else name n.

(** The wait returns a non-zero value exactly when some iteration of the
    call found the alarm armed and due. *)
Definition returns_nonzero_iff_fired (c0 : Config) : Prop :=
  ∀ hist st pc status res v,
    wait_exec c0 hist (st, pc, status) →
    wait_step pc st status = Some res →
    ret res = Done v →
    (v ≠ 0 ↔ Exists (λ sp : Hal * Pc, fires sp.1 sp.2) ((st, pc) :: hist)).

(** The wait returns 0 in exactly two cases: the handle is unknown, or the
    loop test finds the object not alive. *)
Definition returns_zero_iff_unknown_or_inactive (c0 : Config) : Prop :=
  ∀ hist st pc status res v,
    wait_exec c0 hist (st, pc, status) →
    wait_step pc st status = Some res →
    ret res = Done v →
    (v = 0 ↔ (∃ h, pc = AtGet h ∧ Get h st = None) ∨ finds_inactive st pc).

(** While the machine is paused, an iteration on a live object always goes
    to the 1000 s sleep, so that a due alarm does not fire. *)
Definition paused_freezes_firing (st : Hal) : Prop :=
  notifiersPaused st = true →
  ∀ pc r n status res,
    pc_object pc = Some r → heap st !! r = Some n → active n = true →
    wait_step pc st status = Some res →
    ret res = InWaitFor r Seconds1000.

(** ** Scenarios *)

Definition empty_hal : Hal :=
  {| heap := []; notifierHandles := []; notifiersPaused := false; fpgaTime := 0 |}.

(** One object, in slot 0, at time 0. *)
Definition one_notifier (n : Notifier) : Hal :=
  {| heap := [n]; notifierHandles := [Some 0%nat];
     notifiersPaused := false; fpgaTime := 0 |}.

Definition armed_for_50 : Notifier :=
  {| name := "arm"; waitTime := 50; active := true; running := true; count := 2 |}.

(** Three objects in slots 0, 2 and 3; the third has been stopped and armed
    again. *)
Definition two_alarms : Hal :=
  {| heap := [ {| name := "a"; waitTime := 900; active := true; running := true; count := 1 |};
               {| name := "b"; waitTime := 300; active := true; running := true; count := 0 |};
               {| name := "c"; waitTime := 100; active := false; running := true; count := 0 |} ];
     notifierHandles := [Some 0%nat; None; Some 1%nat; Some 2%nat];
     notifiersPaused := false; fpgaTime := 10 |}.

(** A name of 70 characters. *)
Definition long_named : Hal :=
  one_notifier
    {| name := "0123456789012345678901234567890123456789012345678901234567890123456789";
       waitTime := 5; active := true; running := true; count := 0 |}.

(** A name of [k] characters. *)
Fixpoint xs (k : nat) : string :=
  match k with
  | O => ""
  | S k' => String (Ascii.ascii_of_nat 120) (xs k')
  end.

Definition armed_thrice_waited : Hal :=
  one_notifier {| name := ""; waitTime := 40; active := true; running := true; count := 3 |}.

Definition stop_between_two_waits : list Call :=
  [CWaitStep (AtLock 0%nat); CStop (createHandle 0);
   CUpdate (createHandle 0) 90; CWaitStep (AtLock 0%nat)].

Definition armed_at_zero : Hal :=
  one_notifier {| name := ""; waitTime := 0; active := true; running := true; count := 0 |}.

Definition armed_for_40 : Hal :=
  one_notifier {| name := ""; waitTime := 40; active := true; running := true; count := 0 |}.

(** Created at time 0 and armed for 0. *)
Definition created_and_armed_for_zero : Hal :=
  run_calls [CInitialize; CUpdate (createHandle 0) 0] empty_hal.

(** Created, armed for 100, paused; the clock then reads 200. *)
Definition paused_and_due : Hal :=
  run_calls [CInitialize; CUpdate (createHandle 0) 100; CPause; CClock 200] empty_hal.

(** One alarm, armed and never waited on. *)
Definition armed_unwaited : Hal :=
  one_notifier {| name := ""; waitTime := 500; active := true; running := true; count := 0 |}.

(** ** Notions used in the further properties *)

(** The table has no more slots than [Allocate] ever makes. *)
Definition table_bounded (st : Hal) : Prop :=
  Z.of_nat (length (notifierHandles st)) ≤ INT16_MAX.

(** What an object's fields satisfy by their types and by line 177: an
    armed object never holds the disarming value as its deadline. *)
Definition object_sound (n : Notifier) : Prop :=
  uint64 (waitTime n) ∧ uint64 (count n)
  ∧ (running n = true → waitTime n ≠ UINT64_MAX).

Definition sound (st : Hal) : Prop :=
  refs_valid st ∧ table_bounded st ∧ Forall object_sound (heap st).

(** Calls that leave the wake counts alone and do not deactivate: naming,
    arming, cancelling, pause, resume, wake-up, the clock, and the steps of
    a wait call other than its entry. *)
Definition keeps_generation (c : Call) : Prop :=
  match c with
  | CSetName _ _ | CUpdate _ _ | CCancel _ | CPause | CResume | CWakeup
  | CClock _ | CWaitStep (AtGet _) | CWaitStep (InWaitFor _ _)
  | CWaitStep (Done _) => True
  | _ => False
  end.

(** Two objects created, the first armed for 70 and the second for 30. *)
Definition two_created : Hal :=
  run_calls [CInitialize; CInitialize; CUpdate (createHandle 0) 70;
             CUpdate (createHandle 1) 30] empty_hal.

(** * Properties *)

(** ** Heap writes *)

Lemma heap_modify_eq r f st n :
  heap st !! r = Some n → heap (modify r f st) !! r = Some (f n).
Proof. intros H. cbn. by rewrite list_lookup_alter_eq, H. Qed.

Lemma heap_modify_ne r r' f st :
  r ≠ r' → heap (modify r f st) !! r' = heap st !! r'.
Proof. intros H. cbn. by rewrite list_lookup_alter_ne. Qed.

Lemma Get_modify h r f st : Get h (modify r f st) = Get h st.
Proof. reflexivity. Qed.

(** [Free] finds what [Get] finds. *)
Lemma Free_Get h st : (Free h st).1 = Get h st.
Proof.
  unfold Free, Get. destruct (getHandleTypedIndex h) as [i|]; cbn; [|done].
  by destruct (notifierHandles st !! i).
Qed.

(** ** Arming: [HAL_UpdateNotifierAlarm] *)

(** C4.  On a known handle, update-alarm stores the deadline [d], arms the
    object exactly when [d] is not [UINT64_MAX], keeps the name, the alive
    flag and the wake count, leaves every other object, the handle table,
    the paused flag, the clock and the status alone, and notifies the
    object's condition variable after the mutex is released, whatever [d]
    is. *)
Theorem update_alarm_sets_deadline_and_notifies
    (h d : Z) (st : Hal) (status : Z) (r : nat) (n : Notifier) :
  Get h st = Some r →
  heap st !! r = Some n →
  let res := HAL_UpdateNotifierAlarm h d st status in
  heap (post res) !! r
    = Some {| name := name n; waitTime := d; active := active n;
              running := bool_decide (d ≠ UINT64_MAX); count := count n |}
  ∧ (∀ r', r' ≠ r → heap (post res) !! r' = heap st !! r')
  ∧ notifierHandles (post res) = notifierHandles st
  ∧ notifiersPaused (post res) = notifiersPaused st
  ∧ fpgaTime (post res) = fpgaTime st
  ∧ status_out res = status
  ∧ syncs res = [Lock r; Unlock r; NotifyAll r].
Proof.
  intros Hget Hobj. unfold HAL_UpdateNotifierAlarm. rewrite Hget. cbn.
  repeat split.
  - rewrite list_lookup_alter_eq, Hobj. cbn. do 2 f_equal.
    destruct (Z.eqb_spec d UINT64_MAX) as [->|Hne]; cbn.
    + by rewrite bool_decide_eq_false_2 by (intros ?; congruence).
    + by rewrite bool_decide_eq_true_2.
  - intros r' Hne. by rewrite list_lookup_alter_ne.
Qed.

Lemma update_alarm_sets_deadline_and_notifies_witness :
  heap (post (HAL_UpdateNotifierAlarm (createHandle 0) UINT64_MAX
                (one_notifier make_shared_Notifier) 7)) !! 0%nat
    = Some {| name := ""; waitTime := UINT64_MAX; active := true;
              running := false; count := 0 |}
  ∧ syncs (HAL_UpdateNotifierAlarm (createHandle 0) UINT64_MAX
             (one_notifier make_shared_Notifier) 7)
    = [Lock 0%nat; Unlock 0%nat; NotifyAll 0%nat].
Proof.
  pose proof (update_alarm_sets_deadline_and_notifies
                (createHandle 0) UINT64_MAX (one_notifier make_shared_Notifier)
                7 0%nat make_shared_Notifier eq_refl eq_refl) as H.
  cbv zeta in H. destruct H as (H1 & _ & _ & _ & _ & _ & H7).
  split; [exact H1 | exact H7].
Defined.

(** ** Cancelling: [HAL_CancelNotifierAlarm] *)

(** C10.  On a known handle, cancel-alarm clears [running] and nothing
    else: deadline, wake count, name and alive flag of the object, every
    other object, the handle table, the paused flag, the clock and the
    status are as before, and no condition variable is notified (the only
    events are taking and releasing the object's mutex). *)
Theorem cancel_alarm_only_disarms
    (h : Z) (st : Hal) (status : Z) (r : nat) (n : Notifier) :
  Get h st = Some r →
  heap st !! r = Some n →
  let res := HAL_CancelNotifierAlarm h st status in
  heap (post res) !! r
    = Some {| name := name n; waitTime := waitTime n; active := active n;
              running := false; count := count n |}
  ∧ (∀ r', r' ≠ r → heap (post res) !! r' = heap st !! r')
  ∧ notifierHandles (post res) = notifierHandles st
  ∧ (∀ h', Get h' (post res) = Get h' st)
  ∧ notifiersPaused (post res) = notifiersPaused st
  ∧ fpgaTime (post res) = fpgaTime st
  ∧ status_out res = status
  ∧ syncs res = [Lock r; Unlock r]
  ∧ (∀ r', NotifyAll r' ∉ syncs res) ∧ NotifyAllWaiter ∉ syncs res.
Proof.
  intros Hget Hobj. unfold HAL_CancelNotifierAlarm. rewrite Hget. cbn.
  repeat split.
  - by rewrite list_lookup_alter_eq, Hobj.
  - intros r' Hne. by rewrite list_lookup_alter_ne.
  - intros r' Hin. repeat (apply elem_of_cons in Hin as [Hin|Hin]; [discriminate|]).
    by apply elem_of_nil in Hin.
  - intros Hin. repeat (apply elem_of_cons in Hin as [Hin|Hin]; [discriminate|]).
    by apply elem_of_nil in Hin.
Qed.

Lemma cancel_alarm_only_disarms_witness :
  heap (post (HAL_CancelNotifierAlarm (createHandle 0) (one_notifier armed_for_50) 7))
    !! 0%nat
    = Some {| name := "arm"; waitTime := 50; active := true;
              running := false; count := 2 |}
  ∧ syncs (HAL_CancelNotifierAlarm (createHandle 0) (one_notifier armed_for_50) 7)
    = [Lock 0%nat; Unlock 0%nat].
Proof.
  pose proof (cancel_alarm_only_disarms (createHandle 0) (one_notifier armed_for_50)
                7 0%nat armed_for_50 eq_refl eq_refl) as H.
  cbv zeta in H. destruct H as (H1 & _ & _ & _ & _ & _ & _ & H8 & _).
  split; [exact H1 | exact H8].
Defined.

(** ** Unknown handles and the status output *)

Lemma createHandle_valid i : createHandle i ≠ HAL_kInvalidHandle.
Proof. unfold createHandle, notifierHandleTag, HAL_kInvalidHandle. lia. Qed.

Lemma Clean_unknown h st status :
  Get h st = None → HAL_CleanNotifier h st status = mkRes () st status [].
Proof.
  intros Hget. unfold HAL_CleanNotifier.
  pose proof (Free_Get h st) as HF. destruct (Free h st) as [o st1].
  cbn in HF. rewrite Hget in HF. by subst o.
Qed.

Lemma Get_after_Clean h st status :
  Get h (post (HAL_CleanNotifier h st status)) = None.
Proof.
  unfold HAL_CleanNotifier.
  destruct (Free h st) as [o st1] eqn:HF.
  pose proof (Free_Get h st) as HG. rewrite HF in HG. cbn in HG.
  destruct o as [r|]; cbn; [|done].
  rewrite Get_modify. revert HF HG. unfold Free, Get.
  destruct (getHandleTypedIndex h) as [i|]; cbn; [|done].
  destruct (notifierHandles st !! i) as [o|] eqn:Hi; cbn; [|done].
  intros [= -> <-] _. cbn.
  rewrite list_lookup_insert_eq; [done|]. by eapply lookup_lt_Some.
Qed.

Lemma wait_step_status pc st status res :
  wait_step pc st status = Some res → status_out res = status.
Proof.
  destruct pc as [h|r|r d|v]; cbn.
  - destruct (Get h st); by intros [= <-].
  - destruct (heap st !! r) as [n|]; cbn; [|done]. intros [= <-]. cbn.
    unfold wait_loop. cbn. by repeat case_match.
  - destruct (heap st !! r) as [n|]; cbn; [|done]. intros [= <-].
    unfold wait_loop. by repeat case_match.
  - done.
Qed.

(** C9.  With an unknown handle, set-name, stop, free, update-alarm,
    cancel-alarm and wait-for-alarm return with the machine unchanged, the
    status not written and no event; a freed handle is unknown.  With any
    handle these calls leave the status as it was.  Create writes the
    status only when the registry has no slot left, and then stores
    [HAL_HANDLE_ERROR], returns the invalid handle and changes nothing;
    otherwise it returns a valid handle bound to a fresh object and leaves
    the status alone. *)
Theorem only_create_reports_an_error
    (h : Z) (st : Hal) (status : Z) (s : string) (t : Z) :
  Get h st = None →
  (HAL_SetNotifierName h s st status = mkRes () st status []
   ∧ HAL_StopNotifier h st status = mkRes () st status []
   ∧ HAL_CleanNotifier h st status = mkRes () st status []
   ∧ HAL_UpdateNotifierAlarm h t st status = mkRes () st status []
   ∧ HAL_CancelNotifierAlarm h st status = mkRes () st status []
   ∧ wait_step (AtGet h) st status = Some (mkRes (Done 0) st status []))
  ∧ (∀ h' st', Get h' (post (HAL_CleanNotifier h' st' status)) = None)
  ∧ (∀ h' st',
       status_out (HAL_SetNotifierName h' s st' status) = status
       ∧ status_out (HAL_StopNotifier h' st' status) = status
       ∧ status_out (HAL_CleanNotifier h' st' status) = status
       ∧ status_out (HAL_UpdateNotifierAlarm h' t st' status) = status
       ∧ status_out (HAL_CancelNotifierAlarm h' st' status) = status
       ∧ ∀ pc res, wait_step pc st' status = Some res → status_out res = status)
  ∧ (let res := HAL_InitializeNotifier st status in
     (ret res = HAL_kInvalidHandle
      ∧ status_out res = HAL_HANDLE_ERROR
      ∧ post res = st
      ∧ first_free (notifierHandles st) = None
      ∧ INT16_MAX ≤ Z.of_nat (length (notifierHandles st)))
     ∨ (ret res ≠ HAL_kInvalidHandle
        ∧ status_out res = status
        ∧ heap (post res) = heap st ++ [make_shared_Notifier]
        ∧ (first_free (notifierHandles st) ≠ None
           ∨ Z.of_nat (length (notifierHandles st)) < INT16_MAX))).
Proof.
  intros Hget. split; [|split; [|split]].
  - unfold HAL_SetNotifierName, HAL_StopNotifier, HAL_UpdateNotifierAlarm,
      HAL_CancelNotifierAlarm. cbn. rewrite Hget.
    by rewrite Clean_unknown.
  - intros h' st'. apply Get_after_Clean.
  - intros h' st'.
    unfold HAL_SetNotifierName, HAL_StopNotifier, HAL_UpdateNotifierAlarm,
      HAL_CancelNotifierAlarm, HAL_CleanNotifier.
    destruct (Get h' st'), (Free h' st') as [[?|] ?]; cbn;
      repeat split; eauto using wait_step_status.
  - cbv zeta. unfold HAL_InitializeNotifier, Allocate.
    destruct (first_free (notifierHandles st)) as [i|] eqn:Hff.
    + right. pose proof (createHandle_valid i) as Hv.
      apply Z.eqb_neq in Hv as Hv'. rewrite Hv'. cbn. repeat split; auto.
    + destruct (Z.leb_spec INT16_MAX (Z.of_nat (length (notifierHandles st)))).
      * left. cbn. repeat split; auto.
      * right. pose proof (createHandle_valid (length (notifierHandles st))) as Hv.
        apply Z.eqb_neq in Hv as Hv'. rewrite Hv'. cbn. repeat split; auto.
Qed.

Lemma only_create_reports_an_error_witness :
  HAL_StopNotifier 5 empty_hal 7 = mkRes () empty_hal 7 []
  ∧ wait_step (AtGet 5) empty_hal 7 = Some (mkRes (Done 0) empty_hal 7 []).
Proof.
  pose proof (only_create_reports_an_error 5 empty_hal 7 "" 0 eq_refl) as H.
  destruct H as ((_ & H2 & _ & _ & _ & H6) & _).
  split; [exact H2 | exact H6].
Defined.

(** ** What [ForEach] visits *)

Lemma elem_of_entries st h r :
  (h, r) ∈ entries st
  ↔ ∃ i : nat, notifierHandles st !! i = Some (Some r) ∧ h = createHandle i.
Proof.
  unfold entries. rewrite list_elem_of_omap. split.
  - intros (o & Hin & Ho). cbn in Ho. subst o.
    apply elem_of_lookup_imap in Hin as (i & o & Heq & Hi).
    destruct o as [r'|]; cbn in Heq; [|done].
    injection Heq as -> ->. eauto.
  - intros (i & Hi & ->). exists (Some (createHandle i, r)). split; [|done].
    apply elem_of_lookup_imap. exists i, (Some r). by split.
Qed.

Lemma elem_of_visited st h r n :
  (h, r, n) ∈ visited st ↔ registered st h r n.
Proof.
  unfold visited, registered. rewrite list_elem_of_omap. split.
  - intros ([h' r'] & Hin & Ho). cbn in Ho.
    destruct (heap st !! r') as [n'|] eqn:Hn; cbn in Ho; [|done].
    injection Ho as -> -> ->.
    apply elem_of_entries in Hin as (i & Hi & ->). eauto.
  - intros (i & Hi & -> & Hn). exists (createHandle i, r). split.
    + apply elem_of_entries. eauto.
    + cbn. by rewrite Hn.
Qed.

(** ** The next timeout *)

Section NextTimeout.

Let pick (timeout : Z) (e : Z * nat * Notifier) : Z :=
  if active e.2 && running e.2 && (waitTime e.2 <? timeout)
  then waitTime e.2 else timeout.

Let armed (e : Z * nat * Notifier) : Prop :=
  active e.2 = true ∧ running e.2 = true.

Lemma pick_cases (acc : Z) (e : Z * nat * Notifier) :
  (armed e ∧ waitTime e.2 < acc ∧ pick acc e = waitTime e.2)
  ∨ ((armed e → acc ≤ waitTime e.2) ∧ pick acc e = acc).
Proof.
  unfold pick, armed.
  destruct (active e.2), (running e.2); cbn; try (right; split; [intros []|]; done).
  destruct (Z.ltb_spec (waitTime e.2) acc); [left|right]; auto.
Qed.

Lemma pick_fold_bounds (l : list (Z * nat * Notifier)) (acc : Z) :
  foldl pick acc l ≤ acc
  ∧ (∀ e, e ∈ l → armed e → foldl pick acc l ≤ waitTime e.2)
  ∧ (foldl pick acc l = acc
     ∨ ∃ e, e ∈ l ∧ armed e ∧ waitTime e.2 = foldl pick acc l).
Proof.
  revert acc. induction l as [|e l IH]; intros acc; cbn.
  - split; [lia|]. split; [|by left]. intros e Hin. by apply elem_of_nil in Hin.
  - destruct (IH (pick acc e)) as (Hle & Hmin & Hex).
    destruct (pick_cases acc e) as [(Harm & Hlt & Hp)|[Hge Hp]].
    + split; [lia|]. split.
      * intros e' Hin Harm'. apply elem_of_cons in Hin as [->|Hin]; [lia|by apply Hmin].
      * right. destruct Hex as [Heq|(e' & Hin & Harm' & Heq)].
        -- exists e. split; [left|]. split; [done|lia].
        -- exists e'. split; [by right|]. by split.
    + split; [lia|]. split.
      * intros e' Hin Harm'. apply elem_of_cons in Hin as [->|Hin]; [|by apply Hmin].
        specialize (Hge Harm'). lia.
      * destruct Hex as [Heq|(e' & Hin & Harm' & Heq)].
        -- left. lia.
        -- right. exists e'. split; [by right|]. by split.
Qed.

End NextTimeout.

(** C7.  With every deadline a [uint64_t], next-timeout is below the
    deadline of every registered object that is alive and armed, and it
    either is the deadline of one of them or is [UINT64_MAX] with no such
    object registered. *)
Theorem next_timeout_is_least_armed_deadline (st : Hal) :
  deadlines_fit st →
  let t := HALSIM_GetNextNotifierTimeout st in
  (∀ h r n, registered st h r n → active n = true → running n = true →
            t ≤ waitTime n)
  ∧ ((∃ h r n, registered st h r n ∧ active n = true ∧ running n = true
               ∧ waitTime n = t)
     ∨ (t = UINT64_MAX
        ∧ ∀ h r n, registered st h r n → ¬ (active n = true ∧ running n = true))).
Proof.
  intros Hwt. cbv zeta. unfold HALSIM_GetNextNotifierTimeout.
  pose proof (pick_fold_bounds (visited st) UINT64_MAX) as H. cbv zeta in H.
  destruct H as (Hle & Hmin & Hex).
  assert (∀ h r n, registered st h r n → waitTime n ≤ UINT64_MAX) as Hty.
  { intros h r n (i & _ & _ & Hn). unfold deadlines_fit in Hwt.
    rewrite Forall_forall in Hwt.
    apply list_elem_of_lookup_2 in Hn. by apply Hwt in Hn as [_ ?]. }
  split.
  - intros h r n Hreg Ha Hr. apply elem_of_visited in Hreg.
    by apply (Hmin (h, r, n)).
  - destruct Hex as [Heq|([[h r] n] & Hin & [Ha Hr] & Heq)].
    + destruct (decide (Exists (λ e : Z * nat * Notifier,
                                  active e.2 = true ∧ running e.2 = true) (visited st)))
        as [Hyes|Hno]; rewrite Exists_exists in *.
      * destruct Hyes as ([[h r] n] & Hin & Ha & Hr). left.
        exists h, r, n. apply elem_of_visited in Hin as Hreg.
        repeat split; try done. cbn in *.
        specialize (Hmin _ Hin (conj Ha Hr)). specialize (Hty _ _ _ Hreg).
        cbn in Hmin. lia.
      * right. split; [done|]. intros h r n Hreg [Ha Hr]. apply Hno.
        exists (h, r, n). by rewrite elem_of_visited.
    + left. exists h, r, n. by rewrite <- elem_of_visited.
Qed.

Lemma two_alarms_deadlines_fit : deadlines_fit two_alarms.
Proof. repeat constructor; by vm_compute. Defined.

Lemma next_timeout_is_least_armed_deadline_witness :
  HALSIM_GetNextNotifierTimeout two_alarms = 300
  ∧ ∀ h r n, registered two_alarms h r n → active n = true → running n = true →
             HALSIM_GetNextNotifierTimeout two_alarms ≤ waitTime n.
Proof.
  split; [reflexivity|].
  exact (proj1 (next_timeout_is_least_armed_deadline two_alarms two_alarms_deadlines_fit)).
Defined.

(** ** The snapshot: [HALSIM_GetNotifierInfo] and [HALSIM_GetNumNotifiers] *)

Lemma elem_of_live st h r n :
  (h, r, n) ∈ live st ↔ registered st h r n ∧ active n = true.
Proof.
  unfold live. rewrite list_elem_of_filter, elem_of_visited. cbn. tauto.
Qed.

Lemma string_take_length k s : (String.length (string_take k s) ≤ k)%nat.
Proof.
  revert s. induction k as [|k IH]; intros [|c s]; cbn; try lia.
  specialize (IH s). lia.
Qed.

Lemma string_take_all k s :
  (String.length s ≤ k)%nat → string_take k s = s.
Proof.
  revert s. induction k as [|k IH]; intros [|c s]; cbn; try done; try lia.
  intros H. f_equal. apply IH. lia.
Qed.

Section Snapshot.

Variable nameSize : nat.
Variable size : Z.

Let put (acc : gmap Z NotifierInfo.t * Z) (e : Z * nat * Notifier) :=
  if negb (active e.2) then acc
  else ((if acc.2 <? size
         then <[acc.2 := info_of nameSize e.1.1 e.2]> acc.1
         else acc.1),
        acc.2 + 1).

Lemma put_fold (l : list (Z * nat * Notifier)) (arr : gmap Z NotifierInfo.t) (k : Z) :
  let alive := filter (λ e : Z * nat * Notifier, active e.2 = true) l in
  let out := foldl put (arr, k) l in
  out.2 = k + Z.of_nat (length alive)
  ∧ ∀ j, out.1 !! j
         = if decide (k ≤ j < Z.min out.2 size)
           then (λ e : Z * nat * Notifier, info_of nameSize e.1.1 e.2)
                  <$> alive !! Z.to_nat (j - k)
           else arr !! j.
Proof.
  revert arr k. induction l as [|e l IH]; intros arr k; cbv zeta.
  - cbn. split; [lia|]. intros j. case_decide; [lia|done].
  - cbn [foldl]. destruct (active e.2) eqn:Ha.
    + rewrite filter_cons_True by done.
      assert (put (arr, k) e
              = (if k <? size then <[k:=info_of nameSize e.1.1 e.2]> arr else arr,
                 k + 1)) as -> by (unfold put; by rewrite Ha).
      destruct (IH (if k <? size then <[k:=info_of nameSize e.1.1 e.2]> arr else arr)
                   (k + 1)) as [Hn Hj].
      cbn in Hn, Hj. split; [cbn; lia|]. intros j. rewrite Hj, Hn. cbn [length].
      repeat case_decide; try lia.
      * replace (Z.to_nat (j - k)) with (S (Z.to_nat (j - (k + 1)))) by lia. done.
      * assert (j = k) as -> by lia.
        replace (Z.to_nat (k - k)) with 0%nat by lia. cbn.
        destruct (Z.ltb_spec k size); [|lia]. by rewrite lookup_insert_eq.
      * destruct (Z.ltb_spec k size); [|done].
        rewrite lookup_insert_ne; [done|]. lia.
    + rewrite filter_cons_False by (by rewrite Ha).
      assert (put (arr, k) e = (arr, k)) as -> by (unfold put; by rewrite Ha).
      apply IH.
Qed.

End Snapshot.

Lemma num_notifiers_fold (l : list (Z * nat * Notifier)) (k : Z) :
  foldl (λ cnt (e : Z * nat * Notifier), if active e.2 then cnt + 1 else cnt) k l
  = k + Z.of_nat (length (filter (λ e : Z * nat * Notifier, active e.2 = true) l)).
Proof.
  revert k. induction l as [|e l IH]; intros k; [cbn; lia|].
  cbn [foldl]. rewrite IH. destruct (active e.2) eqn:Ha.
  - rewrite filter_cons_True by done. cbn. lia.
  - rewrite filter_cons_False by (by rewrite Ha). done.
Qed.

(** C8, as amended.  The snapshot returns the number of registered objects
    that are alive, the number live-count returns, whatever the capacity.
    It writes the cells [0 .. min(count, capacity) - 1] (none when the
    capacity is not positive) and no other cell; cell [j] describes the
    [j]-th live object in slot order by its handle, deadline and armed flag,
    and by the first [nameSize - 1] characters of its name, or of
    ["Notifier<index>"] when the name is empty. *)
Theorem snapshot_fills_prefix_and_counts
    (nameSize : nat) (arr : gmap Z NotifierInfo.t) (size : Z) (st : Hal) :
  let out := HALSIM_GetNotifierInfo nameSize arr size st in
  out.2 = Z.of_nat (length (live st))
  ∧ HALSIM_GetNumNotifiers st = out.2
  ∧ (∀ j, 0 ≤ j < Z.min out.2 size →
          ∃ h r n, live st !! Z.to_nat j = Some (h, r, n)
                   ∧ registered st h r n ∧ active n = true
                   ∧ out.1 !! j = Some (info_of nameSize h n))
  ∧ (∀ j, ¬ (0 ≤ j < Z.min out.2 size) → out.1 !! j = arr !! j)
  ∧ (∀ h n,
       NotifierInfo.handle (info_of nameSize h n) = h
       ∧ NotifierInfo.timeout (info_of nameSize h n) = waitTime n
       ∧ NotifierInfo.running (info_of nameSize h n) = running n
       ∧ NotifierInfo.name (info_of nameSize h n)
         = string_take (nameSize - 1)
             (if decide (name n = "")
              then "Notifier" +:+ pretty (getHandleIndex h) else c_str (name n))
       ∧ (String.length (NotifierInfo.name (info_of nameSize h n)) ≤ nameSize - 1)%nat
       ∧ (name n ≠ "" → c_str (name n) = name n →
          (String.length (name n) < nameSize)%nat →
          NotifierInfo.name (info_of nameSize h n) = name n)).
Proof.
  cbv zeta. unfold HALSIM_GetNotifierInfo, HALSIM_GetNumNotifiers.
  pose proof (put_fold nameSize size (visited st) arr 0) as H. cbv zeta in H.
  destruct H as [Hn Hj]. fold (live st) in Hn, Hj.
  split; [lia|]. split; [by rewrite num_notifiers_fold, Hn|].
  split; [|split].
  - intros j Hrange. specialize (Hj j). rewrite decide_True in Hj by lia.
    rewrite Z.sub_0_r in Hj.
    destruct (live st !! Z.to_nat j) as [[[h r] n]|] eqn:Hl.
    + exists h, r, n. split; [done|].
      apply list_elem_of_lookup_2, elem_of_live in Hl as [? ?]. done.
    + apply lookup_ge_None in Hl. lia.
  - intros j Hout. specialize (Hj j). by rewrite decide_False in Hj by lia.
  - intros h n. cbn. unfold resolved_name.
    repeat split.
    + by case_decide.
    + case_decide; apply string_take_length.
    + intros Hne Hc Hlen. rewrite decide_False by done. rewrite Hc.
      apply string_take_all. lia.
Qed.

(** With the 64-byte name field of the simulator's structure, a name of 70
    characters comes back cut to 63. *)
Lemma snapshot_cuts_long_names :
  ¬ snapshot_carries_names 64 ∅ 4 long_named.
Proof.
  intros H.
  destruct (H 0%nat (createHandle 0) 0%nat _ eq_refl ltac:(lia))
    as (e & He & _ & _ & _ & Hname).
  vm_compute in He. injection He as <-. vm_compute in Hname. discriminate.
Qed.

Lemma xs_length k : String.length (xs k) = k.
Proof. induction k as [|k IH]; [done|]. cbn [xs String.length]. by rewrite IH. Qed.

Lemma snapshot_cuts_names_at_every_size (nameSize : nat) :
  ¬ snapshot_carries_names nameSize ∅ 1
      (one_notifier {| name := xs (S nameSize); waitTime := 5; active := true;
                       running := true; count := 0 |}).
Proof.
  intros H.
  destruct (H 0%nat (createHandle 0) 0%nat _ eq_refl ltac:(lia))
    as (e & He & _ & _ & _ & Hname).
  cbn in He. rewrite lookup_insert_eq in He. injection He as <-.
  cbn [NotifierInfo.name info_of name] in Hname. unfold resolved_name in Hname.
  cbn [name] in Hname. rewrite !decide_False in Hname by done.
  pose proof (string_take_length (nameSize - 1) (c_str (xs (S nameSize)))) as Hlen.
  change (xs (S nameSize)) with (String (Ascii.ascii_of_nat 120) (xs nameSize))
    in Hlen at 1.
  rewrite Hname, xs_length in Hlen. lia.
Qed.

(** ** Lifetime of an object: [active] and [count] *)

Lemma heap_modify r' f st r n :
  heap st !! r = Some n →
  heap (modify r' f st) !! r = Some (if decide (r' = r) then f n else n).
Proof.
  intros H. case_decide as Hr.
  - subst. by apply heap_modify_eq.
  - by rewrite heap_modify_ne.
Qed.

Lemma wait_loop_object r' m st status r n :
  heap st !! r = Some n →
  ∃ n', heap (post (wait_loop r' m st status)) !! r = Some n'
        ∧ (active n' = true → active n = true) ∧ count n' = count n
        ∧ name n' = name n ∧ waitTime n' = waitTime n.
Proof.
  intros H. unfold wait_loop.
  destruct (active m); [|by exists n].
  destruct (running m && (waitTime m <=? HAL_GetFPGATime st)); [|by exists n].
  cbn [post]. rewrite (heap_modify _ _ _ _ _ H). case_decide; eauto 10.
Qed.

Lemma destroy_object (l : list (Z * nat)) st r n :
  heap st !! r = Some n →
  ∃ n', heap (foldl (λ s hr, modify hr.2 deactivate s) st l) !! r = Some n'
        ∧ (active n' = true → active n = true) ∧ count n' = count n.
Proof.
  revert st n. induction l as [|hr l IH]; intros st n H; cbn [foldl]; [by exists n|].
  pose proof (heap_modify hr.2 deactivate st r n H) as H1.
  destruct (IH _ _ H1) as (n' & Hn' & Ha & Hc). exists n'. split; [done|].
  case_decide; cbn in *; split; try done.
  intros Hn'a. by apply Ha in Hn'a.
Qed.

Lemma run_call_object (c : Call) (st : Hal) (r : nat) (n : Notifier) :
  heap st !! r = Some n →
  ∃ n', heap (run_call c st) !! r = Some n'
        ∧ (active n' = true → active n = true)
        ∧ count n' = if begins_wait c r then incr64 (count n) else count n.
Proof.
  intros H. destruct c as [|h s|h|h|h t|h| | | | |pc|t]; cbn [run_call begins_wait].
  - unfold HAL_InitializeNotifier.
    destruct (Allocate _ _) as [handle slots]. case_match; cbn; [by exists n|].
    exists n. by rewrite lookup_app_l by (by eapply lookup_lt_Some).
  - unfold HAL_SetNotifierName. destruct (Get h st) as [r'|]; cbn [post]; [|by exists n].
    rewrite (heap_modify _ _ _ _ _ H). case_decide; eauto.
  - unfold HAL_StopNotifier. destruct (Get h st) as [r'|]; cbn [post]; [|by exists n].
    rewrite (heap_modify _ _ _ _ _ H). case_decide; eauto.
    eexists. split; [done|]. by cbn.
  - unfold HAL_CleanNotifier. destruct (Free h st) as [[r'|] st1] eqn:HF;
      cbn beta iota; cbn [post]; [|by exists n].
    assert (heap st1 = heap st) as Hh.
    { revert HF. unfold Free. repeat case_match; intros [=]; by subst. }
    rewrite <- Hh in H. rewrite (heap_modify _ _ _ _ _ H). case_decide; eauto.
    eexists. split; [done|]. by cbn.
  - unfold HAL_UpdateNotifierAlarm. destruct (Get h st) as [r'|]; cbn [post]; [|by exists n].
    rewrite (heap_modify _ _ _ _ _ H). case_decide; eauto.
  - unfold HAL_CancelNotifierAlarm. destruct (Get h st) as [r'|]; cbn [post]; [|by exists n].
    rewrite (heap_modify _ _ _ _ _ H). case_decide; eauto.
  - by exists n.
  - by exists n.
  - by exists n.
  - cbn. by apply destroy_object.
  - destruct pc as [h|r'|r' d|v]; cbn [wait_step].
    + destruct (Get h st); by exists n.
    + destruct (heap st !! r') as [m|] eqn:Hm; cbn.
      2:{ exists n. split; [done|]. split; [done|].
          case_bool_decide; [congruence|done]. }
      pose proof (heap_modify r' (λ _, set_count (incr64 (count m)) m) st r n H) as H1.
      destruct (wait_loop_object r' (set_count (incr64 (count m)) m) _ 0 r _ H1)
        as (n' & Hn' & Ha & Hc & _).
      exists n'. split; [done|]. revert Ha Hc.
      destruct (decide (r' = r)) as [->|Hne].
      * assert (m = n) as -> by congruence.
        rewrite bool_decide_eq_true_2 by done. cbn. by intros Ha ->.
      * by rewrite bool_decide_eq_false_2 by done.
    + destruct (heap st !! r') as [m|] eqn:Hm; cbn; [|by exists n].
      destruct (wait_loop_object r' m st 0 r n H) as (n' & Hn' & Ha & Hc & _).
      by exists n'.
    + by exists n.
  - by exists n.
Qed.

Lemma run_calls_snoc cs c st : run_calls (cs ++ [c]) st = run_call c (run_calls cs st).
Proof. unfold run_calls. by rewrite foldl_app. Qed.

Lemma incr64_no_wrap x : 0 ≤ x < UINT64_MAX → incr64 x = x + 1.
Proof. unfold incr64, UINT64_MAX. intros H. apply Z.mod_small. lia. Qed.

Lemma first_free_Some slots i :
  first_free slots = Some i → slots !! i = Some None.
Proof.
  revert i. induction slots as [|[r|] slots IH]; intros i; cbn; try done.
  - destruct (first_free slots) as [j|]; cbn; [|done].
    intros [= <-]. by apply IH.
  - by intros [= <-].
Qed.

Lemma create_registers st status :
  let res := HAL_InitializeNotifier st status in
  ret res ≠ HAL_kInvalidHandle →
  registered (post res) (ret res) (length (heap st)) make_shared_Notifier
  ∧ ∀ r n, heap st !! r = Some n → heap (post res) !! r = Some n.
Proof.
  cbv zeta. unfold HAL_InitializeNotifier, Allocate.
  destruct (first_free (notifierHandles st)) as [i|] eqn:Hff.
  - pose proof (createHandle_valid i) as Hv. apply Z.eqb_neq in Hv as ->. cbn.
    intros _. split.
    + exists i. split; [|split; [done|]].
      * apply first_free_Some in Hff. cbn.
        rewrite list_lookup_insert_eq; [done|]. by eapply lookup_lt_Some.
      * cbn. by rewrite lookup_app_r, Nat.sub_diag.
    + intros r n H. by rewrite lookup_app_l by (by eapply lookup_lt_Some).
  - destruct (Z.leb_spec INT16_MAX (Z.of_nat (length (notifierHandles st)))).
    + by cbn.
    + pose proof (createHandle_valid (length (notifierHandles st))) as Hv.
      apply Z.eqb_neq in Hv as ->. cbn. intros _. split.
      * exists (length (notifierHandles st)). split; [|split; [done|]]; cbn.
        -- by rewrite lookup_app_r, Nat.sub_diag.
        -- by rewrite lookup_app_r, Nat.sub_diag.
      * intros r n H0. by rewrite lookup_app_l by (by eapply lookup_lt_Some).
Qed.

(** ** What every reachable state satisfies *)

Lemma modify_Forall (P : Notifier → Prop) r f st :
  (∀ n, P n → P (f n)) → Forall P (heap st) → Forall P (heap (modify r f st)).
Proof. intros Hf H. cbn. apply Forall_alter; auto. Qed.

Lemma wait_loop_Forall (P : Notifier → Prop) r m st status :
  (∀ n b, P n → P (set_running b n)) →
  Forall P (heap st) → Forall P (heap (post (wait_loop r m st status))).
Proof.
  intros Hr H. unfold wait_loop. repeat case_match; cbn [post]; try done.
  apply modify_Forall; auto.
Qed.

Lemma run_call_deadlines_fit c st :
  call_typed c → deadlines_fit st → deadlines_fit (run_call c st).
Proof.
  unfold deadlines_fit. intros Hc H.
  destruct c as [|h s|h|h|h t|h| | | | |pc|t]; cbn [run_call]; try done.
  - unfold HAL_InitializeNotifier. destruct (Allocate _ _) as [handle slots].
    case_match; cbn; [done|]. apply Forall_app. split; [done|].
    repeat constructor; by vm_compute.
  - unfold HAL_SetNotifierName. destruct (Get h st); cbn [post]; [|done].
    by apply modify_Forall.
  - unfold HAL_StopNotifier. destruct (Get h st); cbn [post]; [|done].
    by apply modify_Forall.
  - unfold HAL_CleanNotifier. destruct (Free h st) as [[r|] st1] eqn:HF;
      cbn beta iota; cbn [post]; [|done].
    apply modify_Forall; [done|].
    revert HF. unfold Free. repeat case_match; intros [=]; by subst.
  - unfold HAL_UpdateNotifierAlarm. destruct (Get h st); cbn [post]; [|done].
    by apply modify_Forall.
  - unfold HAL_CancelNotifierAlarm. destruct (Get h st); cbn [post]; [|done].
    by apply modify_Forall.
  - cbn. generalize (entries st). intros l. revert st H.
    induction l as [|hr l IH]; intros st H; cbn [foldl]; [done|].
    apply IH. by apply modify_Forall.
  - destruct pc as [h|r|r d|v]; cbn [wait_step].
    + by destruct (Get h st).
    + destruct (heap st !! r) as [m|] eqn:Hm; cbn; [|done].
      apply wait_loop_Forall; [done|]. apply Forall_alter; [done|].
      intros n Hn _. cbn. rewrite Forall_forall in H. apply H.
      apply list_elem_of_lookup_2 in Hm. congruence.
    + destruct (heap st !! r) as [m|]; cbn; [|done]. by apply wait_loop_Forall.
    + done.
Qed.

Lemma modify_refs_valid r f st : refs_valid st → refs_valid (modify r f st).
Proof. intros H i r' Hi. cbn. rewrite length_alter. exact (H i r' Hi). Qed.

Lemma wait_loop_refs_valid r m st status :
  refs_valid st → refs_valid (post (wait_loop r m st status)).
Proof.
  intros H. unfold wait_loop. repeat case_match; cbn [post]; try done.
  by apply modify_refs_valid.
Qed.

Lemma run_call_refs_valid c st : refs_valid st → refs_valid (run_call c st).
Proof.
  intros H.
  destruct c as [|h s|h|h|h t|h| | | | |pc|t]; cbn [run_call]; try done.
  - unfold HAL_InitializeNotifier, Allocate.
    destruct (first_free (notifierHandles st)) as [j|] eqn:Hff.
    + pose proof (createHandle_valid j) as Hv. apply Z.eqb_neq in Hv as ->.
      intros i r. cbn. rewrite length_app. cbn.
      destruct (decide (j = i)) as [->|Hne].
      * apply first_free_Some, lookup_lt_Some in Hff.
        rewrite list_lookup_insert_eq by done. intros [= <-]. lia.
      * rewrite list_lookup_insert_ne by done. intros Hi%H. lia.
    + destruct (Z.leb_spec INT16_MAX (Z.of_nat (length (notifierHandles st)))); [done|].
      pose proof (createHandle_valid (length (notifierHandles st))) as Hv.
      apply Z.eqb_neq in Hv as ->. intros i r. cbn. rewrite length_app. cbn.
      intros [Hi|[_ Hi]]%lookup_app_Some.
      * apply H in Hi. lia.
      * apply list_lookup_singleton_Some in Hi as [_ [= <-]]. lia.
  - unfold HAL_SetNotifierName. destruct (Get h st); cbn [post]; [|done].
    by apply modify_refs_valid.
  - unfold HAL_StopNotifier. destruct (Get h st); cbn [post]; [|done].
    by apply modify_refs_valid.
  - unfold HAL_CleanNotifier. destruct (Free h st) as [[r|] st1] eqn:HF;
      cbn beta iota; cbn [post]; [|done].
    apply modify_refs_valid. revert HF. unfold Free.
    destruct (getHandleTypedIndex h) as [j|]; [|done].
    destruct (notifierHandles st !! j) as [o|] eqn:Hj; [|done].
    intros [= -> <-]. intros i r'. cbn.
    destruct (decide (j = i)) as [->|Hne].
    + rewrite list_lookup_insert_eq by (by eapply lookup_lt_Some). done.
    + rewrite list_lookup_insert_ne by done. apply H.
  - unfold HAL_UpdateNotifierAlarm. destruct (Get h st); cbn [post]; [|done].
    by apply modify_refs_valid.
  - unfold HAL_CancelNotifierAlarm. destruct (Get h st); cbn [post]; [|done].
    by apply modify_refs_valid.
  - cbn. generalize (entries st). intros l. revert st H.
    induction l as [|hr l IH]; intros st H; cbn [foldl]; [done|].
    apply IH. by apply modify_refs_valid.
  - destruct pc as [h|r|r d|v]; cbn [wait_step].
    + by destruct (Get h st).
    + destruct (heap st !! r) as [m|]; cbn; [|done].
      by apply wait_loop_refs_valid, modify_refs_valid.
    + destruct (heap st !! r) as [m|]; cbn; [|done]. by apply wait_loop_refs_valid.
    + done.
Qed.

(** From the empty machine, whatever the calls, a known handle names an
    object of the heap and every deadline is a [uint64_t]. *)
Lemma reachable_invariants (cs : list Call) :
  Forall call_typed cs →
  refs_valid (run_calls cs empty_hal) ∧ deadlines_fit (run_calls cs empty_hal).
Proof.
  induction cs as [|c cs IH] using rev_ind; intros Hcs.
  - split; [by intros i r Hi|constructor].
  - apply Forall_app in Hcs as [Hcs Hc]. apply Forall_inv in Hc.
    destruct (IH Hcs) as [Hr Hd]. rewrite run_calls_snoc.
    split; [by apply run_call_refs_valid|].
    exact (run_call_deadlines_fit _ _ Hc Hd).
Qed.

Lemma known_handle_object h st r :
  refs_valid st → Get h st = Some r → is_Some (heap st !! r).
Proof.
  intros Hv. unfold Get.
  destruct (getHandleTypedIndex h) as [i|]; cbn; [|done].
  destruct (notifierHandles st !! i) as [o|] eqn:Hi; cbn; [|done].
  intros ->. apply lookup_lt_is_Some. by eapply Hv.
Qed.

(** [++count] on a [uint64_t] does wrap, after 2^64 - 1 increments. *)
Example incr64_wraps : incr64 UINT64_MAX = 0.
Proof. reflexivity. Qed.

(** ** One iteration of the wait loop *)

Lemma wait_step_iteration pc r st status res n :
  pc_object pc = Some r →
  heap st !! r = Some n →
  wait_step pc st status = Some res →
  status_out res = status
  ∧ ((active n = false ∧ ret res = Done 0
      ∧ heap (post res) !! r = Some (entered pc n))
     ∨ (active n = true ∧ running n = true ∧ waitTime n ≤ fpgaTime st
        ∧ ret res = Done (fpgaTime st)
        ∧ heap (post res) !! r = Some (set_running false (entered pc n)))
     ∨ (active n = true ∧ ¬ (running n = true ∧ waitTime n ≤ fpgaTime st)
        ∧ ret res = InWaitFor r (chosen_sleep st n)
        ∧ heap (post res) !! r = Some (entered pc n)))
  ∧ (∀ r', r' ≠ r → heap (post res) !! r' = heap st !! r')
  ∧ notifierHandles (post res) = notifierHandles st
  ∧ notifiersPaused (post res) = notifiersPaused st
  ∧ fpgaTime (post res) = fpgaTime st.
Proof.
  intros Hpc Hn Hstep.
  assert (∀ (st1 : Hal) (m : Notifier) res1,
            heap st1 !! r = Some m → res1 = wait_loop r m st1 status →
            status_out res1 = status
            ∧ ((active m = false ∧ ret res1 = Done 0
                ∧ heap (post res1) !! r = Some m)
               ∨ (active m = true ∧ running m = true ∧ waitTime m ≤ fpgaTime st1
                  ∧ ret res1 = Done (fpgaTime st1)
                  ∧ heap (post res1) !! r = Some (set_running false m))
               ∨ (active m = true ∧ ¬ (running m = true ∧ waitTime m ≤ fpgaTime st1)
                  ∧ ret res1 = InWaitFor r (chosen_sleep st1 m)
                  ∧ heap (post res1) !! r = Some m))
            ∧ (∀ r', r' ≠ r → heap (post res1) !! r' = heap st1 !! r')
            ∧ notifierHandles (post res1) = notifierHandles st1
            ∧ notifiersPaused (post res1) = notifiersPaused st1
            ∧ fpgaTime (post res1) = fpgaTime st1) as Hloop.
  { intros st1 m res1 Hm ->. unfold wait_loop, HAL_GetFPGATime.
    destruct (active m) eqn:Ha; [|cbn; split; [done|]; split; [by left|done]].
    destruct (running m) eqn:Hr; cbn [andb].
    - destruct (Z.leb_spec (waitTime m) (fpgaTime st1)).
      + cbn [status_out ret post]. split; [done|]. split.
        * right; left. repeat split; try done. by apply heap_modify_eq.
        * split; [|done]. intros r' Hne. by apply heap_modify_ne.
      + cbn. split; [done|]. split; [|done]. right; right.
        repeat split; try done; [lia|]. unfold chosen_sleep. by rewrite Hr.
    - cbn. split; [done|]. split; [|done]. right; right.
      repeat split; try done; [by intros [? _]|]. unfold chosen_sleep. by rewrite Hr. }
  destruct pc as [h|r0|r0 d|v]; cbn in Hpc; try done; injection Hpc as ->;
    cbn [wait_step] in Hstep; rewrite Hn in Hstep; cbn in Hstep;
    injection Hstep as <-.
  - set (m := set_count (incr64 (count n)) n).
    destruct (Hloop (modify r (λ _, m) st) m _ (heap_modify_eq _ _ _ _ Hn) eq_refl)
      as (Hs & Hcase & Hother & Hh & Hp & Ht).
    cbn [status_out ret post entered]. split; [done|]. split; [exact Hcase|].
    split; [|done]. intros r' Hne. rewrite Hother by done. by apply heap_modify_ne.
  - by apply Hloop.
Qed.

Lemma wait_step_object pc r st status res :
  pc_object pc = Some r → wait_step pc st status = Some res →
  ∃ n, heap st !! r = Some n.
Proof.
  destruct pc as [h|r0|r0 d|v]; cbn; try done; intros [= ->];
    destruct (heap st !! r) as [n|]; cbn; try done; eauto.
Qed.

Lemma fires_returns pc st status res :
  fires st pc → wait_step pc st status = Some res →
  ret res = Done (fpgaTime st).
Proof.
  intros Hf Hstep.
  assert (∃ r, pc_object pc = Some r ∧ ∃ n, heap st !! r = Some n ∧ active n = true
               ∧ running n = true ∧ waitTime n ≤ fpgaTime st) as (r & Hpc & n & Hn & Ha & Hr & Hd).
  { destruct pc; cbn in Hf; try done; eauto. }
  destruct (wait_step_iteration _ _ _ _ _ _ Hpc Hn Hstep)
    as (_ & [(Hna & _)|[(_ & _ & _ & Hret & _)|(_ & Hnot & _)]] & _).
  - congruence.
  - done.
  - by destruct Hnot.
Qed.

(** ** Shape of an execution of the wait call *)

Lemma wait_exec_shape h st0 status0 hist cfg :
  wait_exec (st0, AtGet h, status0) hist cfg →
  cfg.2 = status0 ∧ shape h hist cfg.1.2 ∧ quiet hist cfg.1.2.
Proof.
  induction 1 as [|hist st pc status c Hex IH|hist st pc status res Hex IH Hstep];
    cbn [fst snd] in *.
  - repeat split. constructor.
  - done.
  - destruct IH as (-> & Hshape & Hquiet).
    split; [by eapply wait_step_status|]. split.
    + destruct pc as [h'|r|r d|v]; cbn in Hshape.
      * destruct Hshape as [-> ->]. cbn in Hstep.
        destruct (Get h st) as [r|] eqn:Hg; injection Hstep as <-; cbn.
        -- by exists st.
        -- exists st. split; [done|]. by left.
      * destruct Hshape as (s & -> & Hg).
        destruct (wait_step_object (AtLock r) r _ _ _ eq_refl Hstep) as [n Hn].
        destruct (wait_step_iteration (AtLock r) _ _ _ _ _ eq_refl Hn Hstep)
          as (_ & [(_ & -> & _)|[(_ & _ & _ & -> & _)|(_ & _ & -> & _)]] & _); cbn;
          exists s; (split; [done|]); try (right; split; [by rewrite Hg|done]).
        by split.
      * destruct Hshape as (s & Hlast & Hg & Hl).
        assert (last ((st, InWaitFor r d) :: hist) = Some (s, AtGet h)) as Hlast'.
        { destruct hist; [done|]. by rewrite last_cons_cons. }
        assert (lock_steps ((st, InWaitFor r d) :: hist) = 1%nat) as Hl'.
        { unfold lock_steps. by rewrite filter_cons_False by done. }
        destruct (wait_step_object (InWaitFor r d) r _ _ _ eq_refl Hstep) as [n Hn].
        destruct (wait_step_iteration (InWaitFor r d) _ _ _ _ _ eq_refl Hn Hstep)
          as (_ & [(_ & -> & _)|[(_ & _ & _ & -> & _)|(_ & _ & -> & _)]] & _); cbn;
          exists s; (split; [done|]); try (right; split; [by rewrite Hg|done]).
        by split.
      * done.
    + assert (Forall (λ sp : Hal * Pc, ¬ fires sp.1 sp.2) hist) as Hq.
      { destruct pc; cbn in Hquiet; try done. }
      destruct (ret res) eqn:Hret; cbn; try done; constructor; try done;
        intros Hf; cbn in Hf; pose proof (fires_returns _ _ _ _ Hf Hstep); congruence.
Qed.

(** C6.  Across any sequence of calls by any threads (operations, steps of
    wait calls, teardown, clock), an object stays in the heap, an object
    that is not alive never becomes alive again, and its wake count goes up
    by one at each step of a wait call that takes its mutexes and at no
    other call, so that it never decreases; the count is a [uint64_t] and
    the sequence is taken short of the 2^64 increments that would wrap it.
    A wait call that has returned took the mutexes once if its lookup found
    the handle and never otherwise.  A successful create registers a fresh
    object with [active = true], [running = false], [count = 0] and leaves
    the existing objects as they are. *)
Theorem alive_is_one_way_and_count_grows
    (cs : list Call) (st : Hal) (r : nat) (n : Notifier) :
  heap st !! r = Some n →
  0 ≤ count n →
  count n + Z.of_nat (waits_begun cs r) ≤ UINT64_MAX →
  (∃ n', heap (run_calls cs st) !! r = Some n'
         ∧ (active n = false → active n' = false)
         ∧ count n' = count n + Z.of_nat (waits_begun cs r)
         ∧ count n ≤ count n')
  ∧ (∀ c n', heap (run_call c st) !! r = Some n' →
             (active n = false → active n' = false)
             ∧ count n' = if begins_wait c r then incr64 (count n) else count n)
  ∧ (∀ h st0 status0 hist st1 v status,
       wait_exec (st0, AtGet h, status0) hist (st1, Done v, status) →
       ∃ s, last hist = Some (s, AtGet h)
            ∧ lock_steps hist = match Get h s with Some _ => 1%nat | None => 0%nat end)
  ∧ (∀ st1 status,
       let res := HAL_InitializeNotifier st1 status in
       ret res ≠ HAL_kInvalidHandle →
       registered (post res) (ret res) (length (heap st1))
         {| name := ""; waitTime := 0; active := true; running := false; count := 0 |}
       ∧ ∀ r1 n1, heap st1 !! r1 = Some n1 → heap (post res) !! r1 = Some n1).
Proof.
  intros Hobj Hpos Hbound.
  split; [|split; [|split; [|intros st1 status; apply create_registers]]].
  - revert Hbound. induction cs as [|c cs IH] using rev_ind; intros Hbound.
    { exists n. cbn. repeat split; try done; lia. }
    unfold waits_begun in *. rewrite filter_app, length_app in Hbound |- *.
    destruct IH as (n1 & Hn1 & Ha1 & Hc1 & Hle1); [lia|].
    rewrite run_calls_snoc.
    destruct (run_call_object c _ _ _ Hn1) as (n' & Hn' & Ha & Hc).
    exists n'. split; [done|]. split.
    { intros Hf. specialize (Ha1 Hf). destruct (active n'); [|done].
      specialize (Ha eq_refl). congruence. }
    destruct (begins_wait c r) eqn:Hb.
    + rewrite filter_cons_True, filter_nil in Hbound |- * by done.
      cbn [length] in *. rewrite incr64_no_wrap in Hc by lia. lia.
    + rewrite filter_cons_False, filter_nil in Hbound |- * by (by rewrite Hb).
      cbn [length] in *. lia.
  - intros c n' Hn'.
    destruct (run_call_object c _ _ _ Hobj) as (n2 & Hn2 & Ha & Hc).
    assert (n2 = n') as -> by congruence. split; [|done].
    intros Hf. destruct (active n'); [|done]. specialize (Ha eq_refl). congruence.
  - intros h st0 status0 hist st1 v status Hex.
    destruct (wait_exec_shape _ _ _ _ _ Hex) as (_ & Hshape & _). cbn in Hshape.
    destruct Hshape as (s & Hlast & [(Hg & -> & _)|([r' Hg] & Hl)]);
      exists s; rewrite Hg; by split.
Qed.

Lemma alive_is_one_way_and_count_grows_witness :
  ∃ n', heap (run_calls stop_between_two_waits armed_thrice_waited) !! 0%nat = Some n'
        ∧ (true = false → active n' = false)
        ∧ count n' = 3 + Z.of_nat (waits_begun stop_between_two_waits 0)
        ∧ 3 ≤ count n'.
Proof.
  refine (proj1 (alive_is_one_way_and_count_grows stop_between_two_waits
                   armed_thrice_waited 0%nat _ eq_refl _ _)).
  - cbn. lia.
  - vm_compute. discriminate.
Defined.

(** ** Return values of the wait call *)

Lemma fires_object st pc :
  fires st pc →
  ∃ r n, pc_object pc = Some r ∧ heap st !! r = Some n ∧ active n = true
         ∧ running n = true ∧ waitTime n ≤ fpgaTime st.
Proof. destruct pc; cbn; try done; intros (n & ?); eauto 10. Qed.

Lemma finds_inactive_object st pc :
  finds_inactive st pc →
  ∃ r n, pc_object pc = Some r ∧ heap st !! r = Some n ∧ active n = false.
Proof. destruct pc; cbn; try done; intros (n & ?); eauto 10. Qed.

(** What a returning step saw. *)
Lemma wait_step_returns pc st status res v :
  wait_step pc st status = Some res → ret res = Done v →
  (∃ h, pc = AtGet h ∧ Get h st = None ∧ v = 0 ∧ res = mkRes (Done 0) st status [])
  ∨ (finds_inactive st pc ∧ v = 0)
  ∨ (fires st pc ∧ v = fpgaTime st).
Proof.
  intros Hstep Hret. destruct (pc_object pc) as [r|] eqn:Hpc.
  - destruct (wait_step_object _ _ _ _ _ Hpc Hstep) as [n Hn].
    destruct (wait_step_iteration _ _ _ _ _ _ Hpc Hn Hstep)
      as (_ & [(Ha & Hr & _)|[(Ha & Hrun & Hd & Hr & _)|(_ & _ & Hr & _)]] & _).
    + right; left. split; [|congruence].
      destruct pc; cbn in Hpc |- *; try done; injection Hpc as ->; eauto.
    + right; right. split; [|congruence].
      destruct pc; cbn in Hpc |- *; try done; injection Hpc as ->; eauto.
    + congruence.
  - destruct pc as [h| | |]; cbn in Hpc, Hstep; try done.
    left. exists h. destruct (Get h st); injection Hstep as <-; cbn in Hret; [done|].
    injection Hret as <-. done.
Qed.

(** C1, as amended.  Take a wait call about to run a step.  No earlier
    iteration found the alarm armed and due.  If this iteration does, the
    call returns the time the iteration sampled, which is at or past the
    deadline the object holds at that moment, and the step clears [running]
    and changes nothing else in the object (beyond the wake count, when the
    first iteration fires) nor in any other object.  If the step returns a
    value that is not zero, the iteration found the alarm armed and due; the
    returned value is not zero exactly when it did and the clock did not
    read zero. *)
Theorem wait_returns_sampled_time_when_due
    (h : Z) (st0 : Hal) (status0 : Z) (hist : list (Hal * Pc))
    (st : Hal) (pc : Pc) (status : Z) (res : Res Pc) :
  wait_exec (st0, AtGet h, status0) hist (st, pc, status) →
  wait_step pc st status = Some res →
  Forall (λ sp : Hal * Pc, ¬ fires sp.1 sp.2) hist
  ∧ (fires st pc →
     ret res = Done (fpgaTime st)
     ∧ ∃ r n, pc_object pc = Some r ∧ heap st !! r = Some n
              ∧ running n = true ∧ waitTime n ≤ fpgaTime st
              ∧ heap (post res) !! r = Some (set_running false (entered pc n))
              ∧ (∀ r', r' ≠ r → heap (post res) !! r' = heap st !! r'))
  ∧ (∀ v, ret res = Done v → v ≠ 0 → fires st pc)
  ∧ (∀ v, ret res = Done v → (v ≠ 0 ↔ fires st pc ∧ fpgaTime st ≠ 0)).
Proof.
  intros Hex Hstep.
  destruct (wait_exec_shape _ _ _ _ _ Hex) as (_ & _ & Hquiet). cbn in Hquiet.
  assert (∀ v, ret res = Done v → v ≠ 0 → fires st pc) as Hnz.
  { intros v Hret Hne. destruct (wait_step_returns _ _ _ _ _ Hstep Hret)
      as [(h' & _ & _ & ? & _)|[[_ ?]|[? _]]]; done. }
  split; [by destruct pc|]. split; [|split; [done|]].
  - intros Hf. split; [by eapply fires_returns|].
    destruct (fires_object _ _ Hf) as (r & n & Hpc & Hn & Ha & Hr & Hd).
    exists r, n.
    destruct (wait_step_iteration _ _ _ _ _ _ Hpc Hn Hstep)
      as (_ & [(Hna & _)|[(_ & _ & _ & _ & Hpost)|(_ & Hnot & _)]] & Hother & _).
    + congruence.
    + done.
    + by destruct Hnot.
  - intros v Hret. split.
    + intros Hne. pose proof (Hnz v Hret Hne) as Hf. split; [done|].
      pose proof (fires_returns _ _ _ _ Hf Hstep). congruence.
    + intros [Hf Ht]. pose proof (fires_returns _ _ _ _ Hf Hstep). congruence.
Qed.

(** With the clock at 0 and the alarm armed for 0 the first iteration fires
    and the call returns the sampled time, which is 0. *)
Lemma wait_fires_with_zero :
  ¬ returns_nonzero_iff_fired (armed_at_zero, AtGet (createHandle 0), 0).
Proof.
  intros H.
  pose proof (wait_exec_own _ [] armed_at_zero (AtGet (createHandle 0)) 0 _
                (wait_exec_start _) eq_refl) as E1.
  cbn [post ret status_out] in E1.
  destruct (H _ _ _ _ _ 0 E1 eq_refl eq_refl) as [_ Hback].
  apply Hback; [|done]. left. cbn.
  eexists. split; [reflexivity|]. by repeat split.
Qed.

(** The call looks its handle up, the clock moves to 55, the call enters the
    loop. *)
Lemma armed_for_40_exec :
  wait_exec (armed_for_40, AtGet (createHandle 0), 0)
    [(armed_for_40, AtGet (createHandle 0))]
    (run_call (CClock 55) armed_for_40, AtLock 0%nat, 0).
Proof.
  apply (wait_exec_other _ _ _ _ _ (CClock 55)).
  exact (wait_exec_own _ [] armed_for_40 (AtGet (createHandle 0)) 0 _
           (wait_exec_start _) eq_refl).
Defined.

Lemma wait_returns_sampled_time_when_due_witness :
  ∃ res, wait_step (AtLock 0%nat) (run_call (CClock 55) armed_for_40) 0 = Some res
         ∧ ret res = Done 55
         ∧ (55 ≠ 0 ↔ fires (run_call (CClock 55) armed_for_40) (AtLock 0%nat)
                     ∧ fpgaTime (run_call (CClock 55) armed_for_40) ≠ 0).
Proof.
  eexists. split; [reflexivity|]. split; [reflexivity|].
  exact (proj2 (proj2 (proj2 (wait_returns_sampled_time_when_due _ _ _ _ _ _ _ _
                                armed_for_40_exec eq_refl))) 55 eq_refl).
Defined.

(** C5, as amended.  Take a wait call about to run a step.  With an
    unknown handle the lookup step returns 0 at once, with the machine
    unchanged and no event.  When the loop test finds the object not alive
    the step returns 0 and leaves every object as it is (beyond the wake
    count, at the entry step).  If the step returns [v], then [v] is 0
    exactly when the handle was unknown at the lookup, or the loop test
    found the object not alive, or the iteration fired with the clock
    reading 0.  The status variable is what it was when the call began,
    whatever the way out. *)
Theorem wait_returns_zero_cases
    (h : Z) (st0 : Hal) (status0 : Z) (hist : list (Hal * Pc))
    (st : Hal) (pc : Pc) (status : Z) (res : Res Pc) :
  wait_exec (st0, AtGet h, status0) hist (st, pc, status) →
  wait_step pc st status = Some res →
  (pc = AtGet h → Get h st = None →
   hist = [] ∧ res = mkRes (Done 0) st status0 [])
  ∧ (finds_inactive st pc →
     ret res = Done 0
     ∧ ∃ r n, pc_object pc = Some r ∧ heap st !! r = Some n
              ∧ heap (post res) !! r = Some (entered pc n)
              ∧ ∀ r', r' ≠ r → heap (post res) !! r' = heap st !! r')
  ∧ (∀ v, ret res = Done v →
          (v = 0 ↔ (pc = AtGet h ∧ Get h st = None)
                   ∨ finds_inactive st pc
                   ∨ (fires st pc ∧ fpgaTime st = 0)))
  ∧ status = status0 ∧ status_out res = status0.
Proof.
  intros Hex Hstep.
  destruct (wait_exec_shape _ _ _ _ _ Hex) as (Hstat & Hshape & _).
  cbn in Hstat, Hshape. subst status.
  split; [|split; [|split; [|split; [done|by eapply wait_step_status]]]].
  - intros -> Hg. destruct Hshape as [_ ->]. split; [done|].
    cbn in Hstep. rewrite Hg in Hstep. by injection Hstep.
  - intros Hi. destruct (finds_inactive_object _ _ Hi) as (r & n & Hpc & Hn & Ha).
    destruct (wait_step_iteration _ _ _ _ _ _ Hpc Hn Hstep)
      as (_ & [(_ & Hr & Hpost)|[(? & _)|(? & _)]] & Hother & _); try congruence.
    split; [done|]. by exists r, n.
  - intros v Hret.
    pose proof (wait_step_returns _ _ _ _ _ Hstep Hret) as Hcases. split.
    + intros ->. destruct Hcases as [(h' & -> & Hg & _)|[[Hi _]|[Hf Ht]]].
      * left. by destruct Hshape as [-> _].
      * by right; left.
      * by right; right.
    + intros [[-> Hg]|[Hi|[Hf Ht]]].
      * cbn in Hstep. rewrite Hg in Hstep. injection Hstep as <-. by injection Hret.
      * destruct Hcases as [(h' & -> & _)|[[_ ?]|[Hf ?]]]; try done.
        destruct (finds_inactive_object _ _ Hi) as (r & n & Hpc & Hn & Ha).
        destruct (fires_object _ _ Hf) as (r' & n' & Hpc' & Hn' & Ha' & _).
        congruence.
      * pose proof (fires_returns _ _ _ _ Hf Hstep). congruence.
Qed.

(** Created at time 0, armed for 0, then waited on: the handle is known, the
    object alive, and the call returns 0. *)
Lemma wait_returns_zero_on_live_alarm :
  ¬ returns_zero_iff_unknown_or_inactive
      (created_and_armed_for_zero, AtGet (createHandle 0), 0).
Proof.
  intros H.
  pose proof (wait_exec_own _ [] created_and_armed_for_zero
                (AtGet (createHandle 0)) 0 _ (wait_exec_start _) eq_refl) as E1.
  cbn [post ret status_out] in E1.
  destruct (H _ _ _ _ _ 0 E1 eq_refl eq_refl) as [Hfwd _].
  destruct (Hfwd eq_refl) as [(h & [=] & _)|(n & Hn & Ha)].
  vm_compute in Hn. injection Hn as <-. discriminate.
Qed.

Lemma wait_returns_zero_cases_witness :
  wait_step (AtGet 5) empty_hal 7 = Some (mkRes (Done 0) empty_hal 7 [])
  ∧ (0 = 0 ↔ (AtGet 5 = AtGet 5 ∧ Get 5 empty_hal = None)
             ∨ finds_inactive empty_hal (AtGet 5)
             ∨ (fires empty_hal (AtGet 5) ∧ fpgaTime empty_hal = 0)).
Proof.
  split; [reflexivity|].
  exact (proj1 (proj2 (proj2 (wait_returns_zero_cases 5 empty_hal 7 [] empty_hal
                                (AtGet 5) 7 _ (wait_exec_start _) eq_refl)))
           0 eq_refl).
Defined.

(** ** Pause and resume *)

(** C3, as amended.  The paused flag is read only where the sleep is
    chosen.  While it is set, an iteration that goes to sleep sleeps
    1000 s whatever [running] and the deadline are; an iteration that finds
    the alarm armed and due returns the sampled time all the same.  Pause
    sets the flag and resume clears it; neither touches an object or the
    handle table, so an armed deadline stays armed, and resume notifies the
    condition variable of every registered object.  With the flag clear an
    armed alarm that is not yet due sleeps until its deadline, and one that
    is due fires. *)
Theorem pause_only_lengthens_the_sleep
    (st : Hal) (pc : Pc) (r : nat) (n : Notifier) (status : Z) (res : Res Pc) :
  pc_object pc = Some r →
  heap st !! r = Some n →
  wait_step pc st status = Some res →
  (notifiersPaused st = true → ∀ d, ret res = InWaitFor r d → d = Seconds1000)
  ∧ (notifiersPaused st = true → active n = true →
     ¬ (running n = true ∧ waitTime n ≤ fpgaTime st) →
     ret res = InWaitFor r Seconds1000)
  ∧ (fires st pc → ret res = Done (fpgaTime st))
  ∧ (notifiersPaused st = false → active n = true → running n = true →
     fpgaTime st < waitTime n →
     ret res = InWaitFor r (MicrosUntil ((waitTime n - fpgaTime st) mod 2 ^ 64)))
  ∧ (∀ st1, (PauseNotifiers st1).1 = with_paused true st1
            ∧ (PauseNotifiers st1).2 = []
            ∧ heap (PauseNotifiers st1).1 = heap st1
            ∧ notifierHandles (PauseNotifiers st1).1 = notifierHandles st1)
  ∧ (∀ st1, (ResumeNotifiers st1).1 = with_paused false st1
            ∧ heap (ResumeNotifiers st1).1 = heap st1
            ∧ notifierHandles (ResumeNotifiers st1).1 = notifierHandles st1
            ∧ ∀ h1 r1 n1, registered st1 h1 r1 n1 →
                          NotifyAll r1 ∈ (ResumeNotifiers st1).2).
Proof.
  intros Hpc Hn Hstep.
  destruct (wait_step_iteration _ _ _ _ _ _ Hpc Hn Hstep) as (_ & Hcase & _).
  split; [|split; [|split; [|split; [|split]]]].
  - intros Hp d Hret.
    destruct Hcase as [(_ & Hr & _)|[(_ & _ & _ & Hr & _)|(_ & _ & Hr & _)]];
      try congruence.
    rewrite Hr in Hret. injection Hret as <-. unfold chosen_sleep. rewrite Hp.
    by destruct (running n).
  - intros Hp Ha Hnot.
    destruct Hcase as [(? & _)|[(_ & ? & ? & _)|(_ & _ & Hr & _)]];
      [congruence|by destruct Hnot|].
    rewrite Hr. unfold chosen_sleep. rewrite Hp. by destruct (running n).
  - intros Hf. by eapply fires_returns.
  - intros Hp Ha Hr Hlt.
    destruct Hcase as [(? & _)|[(_ & _ & ? & _)|(_ & _ & Hret & _)]];
      [congruence|lia|].
    rewrite Hret. unfold chosen_sleep. by rewrite Hp, Hr.
  - done.
  - intros st1. repeat split.
    intros h1 r1 n1 (i & Hi & -> & _). cbn.
    apply list_elem_of_fmap. exists (createHandle i, r1). split; [done|].
    apply elem_of_entries. eauto.
Qed.

(** A wait entered (or woken) while paused returns 200. *)
Lemma paused_alarm_still_fires : ¬ paused_freezes_firing paused_and_due.
Proof.
  intros H.
  specialize (H eq_refl (InWaitFor 0%nat Seconds1000) 0%nat _ 0 _
                eq_refl eq_refl eq_refl eq_refl).
  vm_compute in H. discriminate.
Qed.

Lemma pause_only_lengthens_the_sleep_witness :
  wait_step (InWaitFor 0%nat Seconds1000) paused_and_due 0
  = Some (mkRes (Done 200)
            (modify 0 (set_running false) paused_and_due) 0 [Unlock 0%nat])
  ∧ ret (mkRes (Done 200) (modify 0 (set_running false) paused_and_due) 0 [Unlock 0%nat])
    = Done (fpgaTime paused_and_due).
Proof.
  split; [reflexivity|].
  refine (proj1 (proj2 (proj2 (pause_only_lengthens_the_sleep paused_and_due
            (InWaitFor 0%nat Seconds1000) 0%nat _ 0 _ eq_refl eq_refl eq_refl))) _).
  cbn. eexists. split; [reflexivity|]. by repeat split.
Defined.

(** ** The wake-up barrier *)

Section Partition.

Variable st : Hal.

Let kept (it : Z * Z) : Prop := still_pending st it = true.
Let dropped (it : Z * Z) : Prop := still_pending st it = false.

Lemma swap_at_spec (i j : nat) (l : list (Z * Z)) x y :
  (i ≤ j)%nat → l !! i = Some x → l !! j = Some y →
  swap_at i j l ≡ₚ l
  ∧ length (swap_at i j l) = length l
  ∧ take i (swap_at i j l) = take i l
  ∧ drop j (swap_at i j l) = x :: drop (S j) l.
Proof.
  intros Hij Hi Hj. unfold swap_at. rewrite Hi, Hj.
  pose proof (lookup_lt_Some _ _ _ Hj) as Hlen.
  split; [by apply Permutation_insert_swap|].
  split; [by rewrite !length_insert|].
  split; [by rewrite !take_insert_ge by lia|].
  rewrite (drop_S _ x j).
  - by rewrite !drop_insert_lt by lia.
  - apply list_lookup_insert_eq. by rewrite length_insert.
Qed.

Lemma partition_pending_spec (fuel : nat) (ws : list (Z * Z)) (cnt last : nat) :
  (cnt ≤ last ≤ length ws)%nat → (last - cnt ≤ fuel)%nat →
  Forall kept (take cnt ws) → Forall dropped (drop last ws) →
  (partition_pending fuel st ws cnt last).1 ≡ₚ ws
  ∧ ((partition_pending fuel st ws cnt last).2 ≤ last)%nat
  ∧ Forall kept (take (partition_pending fuel st ws cnt last).2
                      (partition_pending fuel st ws cnt last).1)
  ∧ Forall dropped (drop (partition_pending fuel st ws cnt last).2
                         (partition_pending fuel st ws cnt last).1).
Proof.
  revert ws cnt last.
  induction fuel as [|fuel IH]; intros ws cnt last Hle Hfuel Hk Hd; cbn [partition_pending].
  - assert (cnt = last) as -> by lia. done.
  - case_decide as Hlt; [|assert (cnt = last) as -> by lia; done].
    destruct (lookup_lt_is_Some_2 ws cnt ltac:(lia)) as [it Hit]. rewrite Hit.
    destruct (still_pending st it) eqn:Hp.
    + apply IH; [lia|lia| |done].
      rewrite (take_S_r _ _ _ Hit). apply Forall_app. split; [done|].
      by constructor.
    + destruct (lookup_lt_is_Some_2 ws (pred last) ltac:(lia)) as [y Hy].
      destruct (swap_at_spec cnt (pred last) ws it y ltac:(lia) Hit Hy)
        as (Hperm & Hlen & Htake & Hdrop).
      destruct (IH (swap_at cnt (pred last) ws) cnt (pred last))
        as (Hp1 & Hc1 & Hk1 & Hd1).
      * lia.
      * lia.
      * by rewrite Htake.
      * rewrite Hdrop. constructor; [done|].
        by replace (S (pred last)) with last by lia.
      * split; [by rewrite Hp1|]. split; [lia|done].
Qed.

Lemma filter_all (l : list (Z * Z)) : Forall kept l → filter kept l = l.
Proof.
  induction 1 as [|x l Hx Hl IH]; [done|].
  rewrite filter_cons_True by done. by rewrite IH.
Qed.

Lemma filter_none (l : list (Z * Z)) : Forall dropped l → filter kept l = [].
Proof.
  induction 1 as [|x l Hx Hl IH]; [done|].
  rewrite filter_cons_False; [done|]. unfold kept, dropped in *. congruence.
Qed.

(** A round keeps exactly the entries still waited for, and breaks out of
    the loop exactly when there is none. *)
Lemma barrier_round_spec (ws : list (Z * Z)) :
  match barrier_round st ws with
  | BDone => filter kept ws = []
  | BWaitFor ws' => ws' ≡ₚ filter kept ws ∧ ws' ≠ []
  end.
Proof.
  unfold barrier_round.
  destruct (partition_pending_spec (length ws) ws 0 (length ws))
    as (Hperm & Hc & Hk & Hd).
  { lia. } { lia. } { by rewrite take_0. } { by rewrite drop_all. }
  destruct (partition_pending (length ws) st ws 0 (length ws)) as [ws1 c].
  cbn [fst snd] in *.
  assert (filter kept ws ≡ₚ take c ws1) as Hf.
  { rewrite <- Hperm. rewrite <- (take_drop c ws1) at 1.
    by rewrite filter_app, filter_all, filter_none, app_nil_r. }
  case_decide as Hz.
  - subst c. rewrite take_0 in Hf. by apply Permutation_nil_r in Hf.
  - split; [done|]. intros Hnil.
    assert (length (take c ws1) = c) as Hlen.
    { rewrite length_take. apply Permutation_length in Hperm. lia. }
    rewrite Hnil in Hlen. cbn in Hlen. lia.
Qed.

End Partition.

Lemma due_spec t n :
  due t n = true ↔ running n = true ∧ (count n = 0 ∨ waitTime n ≤ t).
Proof.
  unfold due. rewrite andb_true_iff, orb_true_iff, Z.eqb_eq, Z.leb_le. tauto.
Qed.

Lemma elem_of_collect_waiters st h c :
  (h, c) ∈ collect_waiters st
  ↔ ∃ r n, registered st h r n ∧ running n = true
           ∧ (count n = 0 ∨ waitTime n ≤ fpgaTime st) ∧ c = count n.
Proof.
  unfold collect_waiters, HAL_GetFPGATime. rewrite list_elem_of_omap. split.
  - intros ([[h' r] n] & Hin & Hd). cbn in Hd.
    destruct (due (fpgaTime st) n) eqn:Hdue; [|done]. injection Hd as <- <-.
    apply elem_of_visited in Hin. apply due_spec in Hdue as [? ?]. eauto 10.
  - intros (r & n & Hreg & Hr & Hd & ->). exists (h, r, n).
    split; [by apply elem_of_visited|]. cbn.
    by rewrite (proj2 (due_spec _ _) (conj Hr Hd)).
Qed.

(** An entry stops being waited for when its handle is gone, or the object
    is not alive, or the wake count moved off the recorded value. *)
Lemma still_pending_false st it :
  still_pending st it = false
  ↔ Get it.1 st = None
    ∨ ∃ r, Get it.1 st = Some r
           ∧ ∀ n, heap st !! r = Some n → active n = false ∨ count n ≠ it.2.
Proof.
  unfold still_pending. destruct (Get it.1 st) as [r|]; [|by split; [left|]].
  split.
  - intros H. right. exists r. split; [done|]. intros n Hn. rewrite Hn in H.
    apply andb_false_iff in H as [?|H]; [by left|right]. by apply Z.eqb_neq.
  - intros [?|(r' & [= <-] & H)]; [done|].
    destruct (heap st !! r) as [n|]; [|done].
    destruct (H n eq_refl) as [->|Hne]; [done|].
    apply Z.eqb_neq in Hne. rewrite Hne. apply andb_false_r.
Qed.

Lemma barrier_exec_inv st0 hist cfg :
  barrier_exec st0 hist cfg → barrier_inv st0 hist cfg.2.
Proof.
  induction 1 as [|hist st pc c Hex IH|hist st ws Hex IH]; cbn [snd] in *.
  - pose proof (barrier_round_spec st0 (collect_waiters st0)) as Hr. cbv zeta in Hr.
    unfold WakeupWaitNotifiers_begin. cbn [fst].
    destruct (barrier_round st0 (collect_waiters st0)) as [ws|]; cbn.
    + destruct Hr as [Hperm Hne]. split; [done|].
      intros it. rewrite Hperm, list_elem_of_filter.
      split.
      * intros [? ?]. split; [done|]. by intros s ->%list_elem_of_singleton.
      * intros [? Hs]. split; [|done]. apply Hs. by left.
    + intros it Hin. exists st0. split; [by left|].
      destruct (still_pending st0 it) eqn:Hp; [|done].
      assert (it ∈ filter (λ it, still_pending st0 it = true) (collect_waiters st0)) as Hf
        by by apply list_elem_of_filter.
      rewrite Hr in Hf. by apply elem_of_nil in Hf.
  - done.
  - pose proof (barrier_round_spec st ws) as Hr. cbv zeta in Hr.
    destruct (barrier_round st ws) as [ws'|]; cbn in *.
    + destruct Hr as [Hperm Hne]. destruct IH as [_ IH]. split; [done|]. intros it.
      rewrite Hperm, list_elem_of_filter, IH. split.
      * intros (Hp & Hin & Hs). split; [done|].
        intros s [->|?]%elem_of_cons; auto.
      * intros (Hin & Hs). split; [apply Hs; by left|]. split; [done|].
        intros s ?. apply Hs. by right.
    + destruct IH as [_ IH]. intros it Hin.
      destruct (decide (Forall (λ s, still_pending s it = true) hist)) as [Hall|Hnot].
      * exists st. split; [by left|].
        destruct (still_pending st it) eqn:Hp; [|done].
        assert (it ∈ filter (λ it, still_pending st it = true) ws) as Hf.
        { apply list_elem_of_filter. split; [done|]. apply IH. split; [done|].
          by apply Forall_forall. }
        rewrite Hr in Hf. by apply elem_of_nil in Hf.
      * apply not_Forall_Exists in Hnot; [|apply _].
        apply Exists_exists in Hnot as (s & Hs & Hp). exists s.
        split; [by right|]. cbn in Hp. by destruct (still_pending s it).
Qed.

Lemma barrier_round_done st ws :
  barrier_round st ws = BDone ↔ ∀ it, it ∈ ws → still_pending st it = false.
Proof.
  pose proof (barrier_round_spec st ws) as Hr. cbv zeta in Hr.
  destruct (barrier_round st ws) as [ws'|].
  - split; [done|]. intros Hall. destruct Hr as [Hperm Hne].
    destruct ws' as [|it ws']; [done|].
    assert (it ∈ filter (λ it, still_pending st it = true) ws) as Hin
      by (rewrite <- Hperm; by left).
    apply list_elem_of_filter in Hin as [Hp Hin]. apply Hall in Hin. congruence.
  - split; [|done]. intros _ it Hin.
    destruct (still_pending st it) eqn:Hp; [|done].
    assert (it ∈ filter (λ it, still_pending st it = true) ws) as Hf
      by by apply list_elem_of_filter.
    rewrite Hr in Hf. by apply elem_of_nil in Hf.
Qed.

(** C2.  The barrier records exactly the registered objects that, in the
    state it starts in, are armed and either never waited on or due, each
    with its wake count.  While it is blocked, its vector holds exactly the
    recorded entries that every round so far found still waited for, and is
    not empty.  A round drops an entry only when the handle is gone, or the
    object is not alive, or its wake count is off the recorded value, and
    the loop is left exactly when no entry is still waited for.  So once the
    barrier has returned, each recorded object was seen, in some round,
    unregistered, not alive, or with a new wake count. *)
Theorem barrier_returns_after_due_alarms_moved
    (st0 : Hal) (hist : list Hal) (st : Hal) (pc : BarrierPc) :
  barrier_exec st0 hist (st, pc) →
  (∀ h c, (h, c) ∈ collect_waiters st0
          ↔ ∃ r n, registered st0 h r n ∧ running n = true
                   ∧ (count n = 0 ∨ waitTime n ≤ fpgaTime st0) ∧ c = count n)
  ∧ (∀ ws, pc = BWaitFor ws →
           ws ≠ []
           ∧ ∀ it, it ∈ ws ↔ it ∈ collect_waiters st0
                             ∧ ∀ s, s ∈ hist → still_pending s it = true)
  ∧ (pc = BDone →
     ∀ h r n, registered st0 h r n → running n = true →
              (count n = 0 ∨ waitTime n ≤ fpgaTime st0) →
              ∃ s, s ∈ hist ∧ still_pending s (h, count n) = false
                   ∧ (Get h s ≠ Some r
                      ∨ ∀ n', heap s !! r = Some n' →
                              active n' = false ∨ count n' ≠ count n))
  ∧ (∀ s it, still_pending s it = false
             ↔ Get it.1 s = None
               ∨ ∃ r, Get it.1 s = Some r
                      ∧ ∀ n, heap s !! r = Some n → active n = false ∨ count n ≠ it.2)
  ∧ (∀ s ws, barrier_round s ws = BDone
             ↔ ∀ it, it ∈ ws → still_pending s it = false).
Proof.
  intros Hex. pose proof (barrier_exec_inv _ _ _ Hex) as Hinv. cbn [snd] in Hinv.
  split; [apply elem_of_collect_waiters|].
  split; [by intros ws ->|].
  split; [|split; [apply still_pending_false|apply barrier_round_done]].
  intros -> h r n Hreg Hr Hd. cbn in Hinv.
  destruct (Hinv (h, count n)) as (s & Hs & Hp).
  { apply elem_of_collect_waiters. eauto 10. }
  exists s. split; [done|]. split; [done|].
  apply still_pending_false in Hp as [Hg|(r' & Hg & Hn)]; cbn in Hg.
  - left. congruence.
  - destruct (decide (r' = r)) as [->|Hne]; [by right|left; congruence].
Qed.

Lemma armed_unwaited_exec :
  barrier_exec armed_unwaited
    [run_call (CWaitStep (AtLock 0%nat)) armed_unwaited; armed_unwaited]
    (run_call (CWaitStep (AtLock 0%nat)) armed_unwaited, BDone).
Proof.
  exact (barrier_exec_own _ _ _ [(createHandle 0, 0)]
           (barrier_exec_other _ _ _ _ (CWaitStep (AtLock 0%nat))
              (barrier_exec_start armed_unwaited))).
Defined.

Lemma barrier_returns_after_due_alarms_moved_witness :
  ∃ s, s ∈ [run_call (CWaitStep (AtLock 0%nat)) armed_unwaited; armed_unwaited]
       ∧ still_pending s (createHandle 0, 0) = false.
Proof.
  destruct (proj1 (proj2 (proj2 (barrier_returns_after_due_alarms_moved _ _ _ _
                                   armed_unwaited_exec)))
              eq_refl (createHandle 0) 0%nat _
              (ex_intro _ 0%nat (conj eq_refl (conj eq_refl eq_refl)))
              eq_refl (or_introl eq_refl))
    as (s & Hs & Hp & _).
  by exists s.
Defined.

(** * Further properties *)

(** ** Handles *)

Lemma getHandleTypedIndex_Some h i :
  getHandleTypedIndex h = Some i → h = createHandle i.
Proof.
  unfold getHandleTypedIndex, getHandleIndex, createHandle.
  change 65535 with (Z.ones 16). rewrite Z.land_ones by lia.
  rewrite !Z.shiftr_div_pow2 by lia.
  change (notifierHandleTag / 2 ^ 16) with 768.
  pose proof (Z.mod_pos_bound h (2 ^ 16) ltac:(lia)) as Hlo.
  pose proof (Z.div_mod h (2 ^ 16) ltac:(lia)) as Hdm.
  destruct (Z.eqb_spec (h / 2 ^ 16) 768) as [Hq|]; cbn [andb]; [|done].
  destruct (Z.ltb_spec (h mod 2 ^ 16) 32768).
  - destruct (Z.leb_spec 0 (h mod 2 ^ 16)); [|done]. intros [= <-].
    unfold notifierHandleTag. rewrite Z2Nat.id by lia. lia.
  - destruct (Z.leb_spec 0 (h mod 2 ^ 16 - 65536)); [lia|done].
Qed.

Lemma getHandleTypedIndex_createHandle (i : nat) :
  Z.of_nat i < 32768 → getHandleTypedIndex (createHandle i) = Some i.
Proof.
  intros Hi. unfold getHandleTypedIndex, getHandleIndex, createHandle.
  change 65535 with (Z.ones 16). rewrite Z.land_ones by lia.
  rewrite !Z.shiftr_div_pow2 by lia.
  change (notifierHandleTag / 2 ^ 16) with 768.
  assert ((notifierHandleTag + Z.of_nat i) / 2 ^ 16 = 768) as ->.
  { unfold notifierHandleTag. symmetry. apply (Z.div_unique _ _ _ (Z.of_nat i)); lia. }
  assert ((notifierHandleTag + Z.of_nat i) mod 2 ^ 16 = Z.of_nat i) as ->.
  { unfold notifierHandleTag. symmetry. apply (Z.mod_unique _ _ 768); lia. }
  cbn [Z.eqb Pos.eqb andb].
  destruct (Z.ltb_spec (Z.of_nat i) 32768); [|lia].
  destruct (Z.leb_spec 0 (Z.of_nat i)); [|lia].
  by rewrite Nat2Z.id.
Qed.

(** A handle that [Get] finds is the handle of its slot. *)
Lemma Get_registered h st r n :
  Get h st = Some r → heap st !! r = Some n → registered st h r n.
Proof.
  unfold Get. destruct (getHandleTypedIndex h) as [i|] eqn:Hi; cbn; [|done].
  destruct (notifierHandles st !! i) as [o|] eqn:Hs; cbn; [|done].
  intros -> Hn. exists i. by rewrite (getHandleTypedIndex_Some _ _ Hi).
Qed.

Lemma registered_Get h st r n :
  table_bounded st → registered st h r n → Get h st = Some r.
Proof.
  intros Hb (i & Hi & -> & _). unfold Get.
  rewrite getHandleTypedIndex_createHandle.
  - cbn. by rewrite Hi.
  - apply lookup_lt_Some in Hi. unfold table_bounded, INT16_MAX in Hb. lia.
Qed.

(** ** What every call keeps *)

Lemma destroy_handles (l : list (Z * nat)) st :
  notifierHandles (foldl (λ s hr, modify hr.2 deactivate s) st l) = notifierHandles st.
Proof.
  revert st. induction l as [|hr l IH]; intros st; cbn [foldl]; [done|].
  by rewrite IH.
Qed.

Lemma wait_loop_handles r m st status :
  notifierHandles (post (wait_loop r m st status)) = notifierHandles st.
Proof. unfold wait_loop. by repeat case_match. Qed.

(** A call leaves the table as it is, or rewrites one slot, or adds a slot
    at the end while the table is below its limit. *)
Lemma run_call_handles c st :
  notifierHandles (run_call c st) = notifierHandles st
  ∨ (∃ i o, notifierHandles (run_call c st) = <[i:=o]> (notifierHandles st))
  ∨ (Z.of_nat (length (notifierHandles st)) < INT16_MAX
     ∧ ∃ r, notifierHandles (run_call c st) = notifierHandles st ++ [Some r]).
Proof.
  destruct c as [|h s|h|h|h t|h| | | | |pc|t]; cbn [run_call]; try by left.
  - unfold HAL_InitializeNotifier, Allocate.
    destruct (first_free (notifierHandles st)) as [j|] eqn:Hff.
    + pose proof (createHandle_valid j) as Hv. apply Z.eqb_neq in Hv as ->.
      right; left. by eexists _, _.
    + destruct (Z.leb_spec INT16_MAX (Z.of_nat (length (notifierHandles st)))); [by left|].
      pose proof (createHandle_valid (length (notifierHandles st))) as Hv.
      apply Z.eqb_neq in Hv as ->. right; right. split; [done|]. by eexists.
  - unfold HAL_SetNotifierName. destruct (Get h st); by left.
  - unfold HAL_StopNotifier. destruct (Get h st); by left.
  - unfold HAL_CleanNotifier. destruct (Free h st) as [[r|] st1] eqn:HF;
      cbn beta iota; cbn [post]; [|by left].
    revert HF. unfold Free. destruct (getHandleTypedIndex h) as [j|]; [|done].
    destruct (notifierHandles st !! j) as [o|]; [|done].
    intros [= -> <-]. right; left. by eexists _, _.
  - unfold HAL_UpdateNotifierAlarm. destruct (Get h st); by left.
  - unfold HAL_CancelNotifierAlarm. destruct (Get h st); by left.
  - left. cbn. apply destroy_handles.
  - left. destruct pc as [h|r|r d|v]; cbn [wait_step]; try done.
    + by destruct (Get h st).
    + destruct (heap st !! r); cbn; [|done]. by rewrite wait_loop_handles.
    + destruct (heap st !! r); cbn; [|done]. by rewrite wait_loop_handles.
Qed.

Lemma run_call_table_bounded c st :
  table_bounded st → table_bounded (run_call c st).
Proof.
  unfold table_bounded. intros H.
  destruct (run_call_handles c st) as [->|[(i & o & ->)|(Hlt & r & ->)]].
  - done.
  - by rewrite length_insert.
  - rewrite length_app. cbn. lia.
Qed.

Lemma wait_loop_heap_Forall (P : Notifier → Prop) r m st status :
  (∀ n, P n → P (set_running false n)) →
  Forall P (heap st) → Forall P (heap (post (wait_loop r m st status))).
Proof.
  intros Hr H. unfold wait_loop. repeat case_match; cbn [post]; try done.
  apply modify_Forall; auto.
Qed.

(** A property of objects that creation establishes and every field write
    of the file keeps holds of the whole heap after any call. *)
Lemma run_call_heap_Forall (P : Notifier → Prop) c st :
  P make_shared_Notifier →
  (∀ n s, P n → P (set_name s n)) →
  (∀ n, P n → P (deactivate n)) →
  (∀ n, P n → P (set_running false n)) →
  (∀ n, P n → P (set_count (incr64 (count n)) n)) →
  (∀ n h t, c = CUpdate h t → P n →
            P (set_running (negb (t =? UINT64_MAX)) (set_waitTime t n))) →
  Forall P (heap st) → Forall P (heap (run_call c st)).
Proof.
  intros Hnew Hname Hstop Hdis Hcnt Hupd H.
  destruct c as [|h s|h|h|h t|h| | | | |pc|t]; cbn [run_call]; try done.
  - unfold HAL_InitializeNotifier. destruct (Allocate _ _) as [handle slots].
    case_match; cbn; [done|]. apply Forall_app. split; [done|]. by constructor.
  - unfold HAL_SetNotifierName. destruct (Get h st); cbn [post]; [|done].
    apply modify_Forall; auto.
  - unfold HAL_StopNotifier. destruct (Get h st); cbn [post]; [|done].
    apply modify_Forall; auto.
  - unfold HAL_CleanNotifier. destruct (Free h st) as [[r|] st1] eqn:HF;
      cbn beta iota; cbn [post]; [|done].
    apply modify_Forall; [auto|].
    revert HF. unfold Free. repeat case_match; intros [=]; by subst.
  - unfold HAL_UpdateNotifierAlarm. destruct (Get h st) as [r|]; cbn [post]; [|done].
    apply modify_Forall; [|done]. intros n Hn. by eapply Hupd.
  - unfold HAL_CancelNotifierAlarm. destruct (Get h st); cbn [post]; [|done].
    apply modify_Forall; auto.
  - cbn. generalize (entries st). intros l. revert st H.
    induction l as [|hr l IH]; intros st H; cbn [foldl]; [done|].
    apply IH. apply modify_Forall; auto.
  - destruct pc as [h|r|r d|v]; cbn [wait_step].
    + by destruct (Get h st).
    + destruct (heap st !! r) as [m|] eqn:Hm; cbn; [|done].
      apply wait_loop_heap_Forall; [done|]. apply Forall_alter; [done|].
      intros n Hn _. apply Hcnt. rewrite Forall_forall in H. apply H.
      by apply list_elem_of_lookup_2 in Hm.
    + destruct (heap st !! r) as [m|]; cbn; [|done]. by apply wait_loop_heap_Forall.
    + done.
Qed.

Lemma incr64_range x : uint64 (incr64 x).
Proof.
  unfold uint64, incr64, UINT64_MAX.
  pose proof (Z.mod_pos_bound (x + 1) (2 ^ 64) ltac:(lia)). lia.
Qed.

Lemma run_call_sound c st : call_typed c → sound st → sound (run_call c st).
Proof.
  intros Hc (Hrefs & Hb & Hobj).
  split; [by apply run_call_refs_valid|]. split; [by apply run_call_table_bounded|].
  apply run_call_heap_Forall; [| | | | | |exact Hobj]; unfold object_sound.
  - cbn. unfold uint64, UINT64_MAX. repeat split; (lia || done).
  - by intros n s H.
  - intros n (? & ? & ?). by cbn.
  - intros n (? & ? & ?). by cbn.
  - intros n (? & ? & ?). cbn. split; [done|]. split; [apply incr64_range|done].
  - intros n h t -> (? & ? & ?). cbn in Hc |- *. split; [done|]. split; [done|].
    by destruct (Z.eqb_spec t UINT64_MAX).
Qed.

Lemma run_calls_sound cs st : Forall call_typed cs → sound st → sound (run_calls cs st).
Proof.
  induction cs as [|c cs IH] using rev_ind; intros Hcs Hs; [done|].
  apply Forall_app in Hcs as [Hcs Hc]. apply Forall_inv in Hc.
  rewrite run_calls_snoc. by apply run_call_sound, IH.
Qed.

(** X1.  In every state reached from the empty machine by calls whose
    arguments have their types, the table has at most [INT16_MAX] slots, and
    a handle that [Get] finds names an object of the heap whose deadline and
    wake count are [uint64_t] values and which, when armed, does not hold
    [UINT64_MAX] as its deadline. *)
Theorem reachable_handles_name_sound_objects (cs : list Call) (h : Z) (r : nat) :
  Forall call_typed cs →
  Get h (run_calls cs empty_hal) = Some r →
  Z.of_nat (length (notifierHandles (run_calls cs empty_hal))) ≤ INT16_MAX
  ∧ ∃ n, heap (run_calls cs empty_hal) !! r = Some n
         ∧ registered (run_calls cs empty_hal) h r n
         ∧ uint64 (waitTime n) ∧ uint64 (count n)
         ∧ (running n = true → waitTime n ≠ UINT64_MAX).
Proof.
  intros Hcs Hget.
  assert (sound empty_hal) as H0.
  { split; [by intros i r' Hi|]. split; [by vm_compute|constructor]. }
  destruct (run_calls_sound cs empty_hal Hcs H0) as (Hrefs & Hb & Hobj).
  split; [exact Hb|].
  destruct (known_handle_object _ _ _ Hrefs Hget) as [n Hn]. exists n.
  split; [done|]. split; [by apply Get_registered|].
  rewrite Forall_forall in Hobj. apply Hobj. by eapply list_elem_of_lookup_2.
Qed.

Lemma two_created_typed :
  Forall call_typed [CInitialize; CInitialize; CUpdate (createHandle 0) 70;
                     CUpdate (createHandle 1) 30].
Proof. repeat constructor; by vm_compute. Defined.

Lemma reachable_handles_name_sound_objects_witness :
  ∃ n, heap two_created !! 1%nat = Some n
       ∧ registered two_created (createHandle 1) 1%nat n
       ∧ uint64 (waitTime n) ∧ uint64 (count n)
       ∧ (running n = true → waitTime n ≠ UINT64_MAX).
Proof.
  exact (proj2 (reachable_handles_name_sound_objects _ (createHandle 1) 1%nat
                  two_created_typed eq_refl)).
Defined.

(** ** Stop and free (lines 144-167) *)

(** X2.  On a known handle, stop clears [active] and [running] and nothing
    else, keeps the handle registered, and notifies the object's condition
    variable after releasing its mutex; a waiter that then wakes returns 0
    and changes nothing. *)
Theorem stop_deactivates_and_wakes
    (h : Z) (st : Hal) (status : Z) (r : nat) (n : Notifier) :
  Get h st = Some r →
  heap st !! r = Some n →
  let res := HAL_StopNotifier h st status in
  heap (post res) !! r
    = Some {| name := name n; waitTime := waitTime n; active := false;
              running := false; count := count n |}
  ∧ (∀ r', r' ≠ r → heap (post res) !! r' = heap st !! r')
  ∧ notifierHandles (post res) = notifierHandles st
  ∧ Get h (post res) = Some r
  ∧ status_out res = status
  ∧ syncs res = [Lock r; Unlock r; NotifyAll r]
  ∧ (∀ d status',
       wait_step (InWaitFor r d) (post res) status'
       = Some (mkRes (Done 0) (post res) status' [Unlock r])).
Proof.
  intros Hget Hobj. unfold HAL_StopNotifier. rewrite Hget. cbn [post status_out syncs].
  pose proof (heap_modify_eq r deactivate st n Hobj) as Hr.
  repeat split; try done.
  - intros r' Hne. by apply heap_modify_ne.
  - intros d status'. cbn [wait_step]. by rewrite Hr.
Qed.

Lemma stop_deactivates_and_wakes_witness :
  wait_step (InWaitFor 0%nat Seconds1000)
    (post (HAL_StopNotifier (createHandle 0) (one_notifier armed_for_50) 7)) 3
  = Some (mkRes (Done 0)
            (post (HAL_StopNotifier (createHandle 0) (one_notifier armed_for_50) 7))
            3 [Unlock 0%nat]).
Proof.
  pose proof (stop_deactivates_and_wakes (createHandle 0) (one_notifier armed_for_50)
                7 0%nat armed_for_50 eq_refl eq_refl) as H.
  cbv zeta in H. destruct H as (_ & _ & _ & _ & _ & _ & H7).
  exact (H7 Seconds1000 3).
Defined.

Lemma alter_deactivate_twice r (l : list Notifier) :
  alter deactivate r (alter deactivate r l) = alter deactivate r l.
Proof. rewrite list_alter_alter_eq. by apply list_alter_ext. Qed.

Lemma Get_slot h st r :
  Get h st = Some r →
  ∃ i, getHandleTypedIndex h = Some i ∧ notifierHandles st !! i = Some (Some r).
Proof.
  unfold Get. destruct (getHandleTypedIndex h) as [i|]; cbn; [|done].
  destruct (notifierHandles st !! i) as [o|] eqn:Hs; cbn; [|done].
  intros ->. eauto.
Qed.

(** X3.  Stop and free are idempotent and stop before free changes nothing
    of what free does: a second stop leaves the machine as the first did, a
    free after a stop leaves it as a free alone would, and a second free of
    the same handle is a call with no effect and no event. *)
Theorem stop_and_free_are_idempotent (h : Z) (st : Hal) (status : Z) :
  post (HAL_StopNotifier h (post (HAL_StopNotifier h st status)) status)
    = post (HAL_StopNotifier h st status)
  ∧ post (HAL_CleanNotifier h (post (HAL_StopNotifier h st status)) status)
    = post (HAL_CleanNotifier h st status)
  ∧ HAL_CleanNotifier h (post (HAL_CleanNotifier h st status)) status
    = mkRes () (post (HAL_CleanNotifier h st status)) status [].
Proof.
  split; [|split].
  - unfold HAL_StopNotifier. destruct (Get h st) as [r|] eqn:Hg; cbn [post].
    + rewrite Get_modify, Hg. cbn [post]. unfold modify, with_heap. cbn.
      by rewrite alter_deactivate_twice.
    + by rewrite Hg.
  - unfold HAL_StopNotifier. destruct (Get h st) as [r|] eqn:Hg; cbn [post]; [|done].
    destruct (Get_slot _ _ _ Hg) as (i & Hi & Hs).
    unfold HAL_CleanNotifier, Free. rewrite Hi. cbn. rewrite Hs. cbn.
    unfold modify, with_heap, with_handles. cbn.
    by rewrite alter_deactivate_twice.
  - apply Clean_unknown, Get_after_Clean.
Qed.

(** X4.  On a known handle, free unregisters that handle and no other,
    keeps the object in the heap with [active] and [running] cleared and its
    other fields as they were, and notifies its condition variable; a waiter
    still blocked on the object then returns 0. *)
Theorem free_unregisters_only_its_handle
    (h : Z) (st : Hal) (status : Z) (r : nat) (n : Notifier) :
  Get h st = Some r →
  heap st !! r = Some n →
  let res := HAL_CleanNotifier h st status in
  Get h (post res) = None
  ∧ (∀ h', h' ≠ h → Get h' (post res) = Get h' st)
  ∧ heap (post res) !! r
    = Some {| name := name n; waitTime := waitTime n; active := false;
              running := false; count := count n |}
  ∧ (∀ r', r' ≠ r → heap (post res) !! r' = heap st !! r')
  ∧ status_out res = status
  ∧ syncs res = [Lock r; Unlock r; NotifyAll r]
  ∧ (∀ d status',
       wait_step (InWaitFor r d) (post res) status'
       = Some (mkRes (Done 0) (post res) status' [Unlock r])).
Proof.
  intros Hget Hobj. cbv zeta.
  split; [apply Get_after_Clean|].
  destruct (Get_slot _ _ _ Hget) as (i & Hi & Hs).
  unfold HAL_CleanNotifier, Free. rewrite Hi, Hs. cbn [post status_out syncs].
  assert (heap (modify r deactivate (with_handles (<[i:=None]>) st)) !! r
          = Some (deactivate n)) as Hr.
  { by apply heap_modify_eq. }
  repeat split; try done.
  - intros h' Hne. unfold Get. cbn.
    destruct (getHandleTypedIndex h') as [i'|] eqn:Hi'; cbn; [|done].
    rewrite list_lookup_insert_ne; [done|]. intros ->.
    apply getHandleTypedIndex_Some in Hi, Hi'. congruence.
  - intros r' Hne. by rewrite heap_modify_ne.
  - intros d status'. cbn [wait_step]. by rewrite Hr.
Qed.

Lemma free_unregisters_only_its_handle_witness :
  Get (createHandle 0) (post (HAL_CleanNotifier (createHandle 0) two_created 7)) = None
  ∧ Get (createHandle 1) (post (HAL_CleanNotifier (createHandle 0) two_created 7))
    = Get (createHandle 1) two_created.
Proof.
  pose proof (free_unregisters_only_its_handle (createHandle 0) two_created 7 0%nat _
                eq_refl eq_refl) as H.
  cbv zeta in H. destruct H as (H1 & H2 & _).
  split; [exact H1|]. apply H2. by vm_compute.
Defined.

(** ** Creation (lines 125-134) *)

Lemma first_free_lt slots i : first_free slots = Some i → (i < length slots)%nat.
Proof. intros H. apply first_free_Some in H. by eapply lookup_lt_Some. Qed.

(** X5.  In a table within its limit, a create that succeeds returns a
    handle that named nothing before, that [Get] now resolves to the new
    object, and no other handle changes its meaning; the new object is
    alive, disarmed and never waited on, and the old objects are untouched. *)
Theorem create_then_lookup (st : Hal) (status : Z) :
  table_bounded st →
  ret (HAL_InitializeNotifier st status) ≠ HAL_kInvalidHandle →
  let res := HAL_InitializeNotifier st status in
  Get (ret res) st = None
  ∧ Get (ret res) (post res) = Some (length (heap st))
  ∧ (∀ h', h' ≠ ret res → Get h' (post res) = Get h' st)
  ∧ heap (post res) !! length (heap st)
    = Some {| name := ""; waitTime := 0; active := true; running := false; count := 0 |}
  ∧ (∀ r n, heap st !! r = Some n → heap (post res) !! r = Some n)
  ∧ status_out res = status.
Proof.
  unfold table_bounded, INT16_MAX. intros Hb. cbv zeta.
  unfold HAL_InitializeNotifier, Allocate.
  destruct (first_free (notifierHandles st)) as [i|] eqn:Hff.
  - pose proof (createHandle_valid i) as Hv. apply Z.eqb_neq in Hv as ->.
    cbn [ret post status_out]. intros _.
    pose proof (first_free_lt _ _ Hff) as Hlt.
    pose proof (first_free_Some _ _ Hff) as Hslot.
    assert (getHandleTypedIndex (createHandle i) = Some i) as Hi
      by (apply getHandleTypedIndex_createHandle; lia).
    split; [|split; [|split; [|split; [|split]]]]; try done.
    + unfold Get. rewrite Hi. cbn. by rewrite Hslot.
    + unfold Get. rewrite Hi. cbn. by rewrite list_lookup_insert_eq.
    + intros h' Hne. unfold Get. cbn.
      destruct (getHandleTypedIndex h') as [i'|] eqn:Hi'; cbn; [|done].
      rewrite list_lookup_insert_ne; [done|]. intros ->.
      apply getHandleTypedIndex_Some in Hi'. congruence.
    + cbn. by rewrite lookup_app_r, Nat.sub_diag.
    + intros r n Hn. cbn. by rewrite lookup_app_l by (by eapply lookup_lt_Some).
  - destruct (Z.leb_spec INT16_MAX (Z.of_nat (length (notifierHandles st)))) as [|Hlt];
      [by cbn|].
    unfold INT16_MAX in Hlt.
    pose proof (createHandle_valid (length (notifierHandles st))) as Hv.
    apply Z.eqb_neq in Hv as ->. cbn [ret post status_out]. intros _.
    assert (getHandleTypedIndex (createHandle (length (notifierHandles st)))
            = Some (length (notifierHandles st))) as Hi
      by (apply getHandleTypedIndex_createHandle; lia).
    split; [|split; [|split; [|split; [|split]]]]; try done.
    + unfold Get. rewrite Hi. cbn. by rewrite lookup_ge_None_2.
    + unfold Get. rewrite Hi. cbn. by rewrite lookup_app_r, Nat.sub_diag.
    + intros h' Hne. unfold Get. cbn.
      destruct (getHandleTypedIndex h') as [i'|] eqn:Hi'; cbn; [|done].
      destruct (decide (i' = length (notifierHandles st))) as [->|Hne'].
      * apply getHandleTypedIndex_Some in Hi'. congruence.
      * destruct (decide (i' < length (notifierHandles st))%nat).
        -- by rewrite lookup_app_l.
        -- rewrite !lookup_ge_None_2; [done|lia|rewrite length_app; cbn; lia].
    + cbn. by rewrite lookup_app_r, Nat.sub_diag.
    + intros r n Hn. cbn. by rewrite lookup_app_l by (by eapply lookup_lt_Some).
Qed.

Lemma two_created_bounded : table_bounded two_created.
Proof. by vm_compute. Defined.

Lemma create_then_lookup_witness :
  Get (ret (HAL_InitializeNotifier two_created 0)) two_created = None
  ∧ Get (ret (HAL_InitializeNotifier two_created 0))
      (post (HAL_InitializeNotifier two_created 0)) = Some 2%nat.
Proof.
  pose proof (create_then_lookup two_created 0 two_created_bounded
                ltac:(by vm_compute)) as H.
  cbv zeta in H. destruct H as (H1 & H2 & _). split; [exact H1|exact H2].
Defined.

(** ** Teardown (lines 49-59) *)

Lemma destroy_heap (l : list (Z * nat)) st r n :
  heap st !! r = Some n →
  heap (foldl (λ s hr, modify hr.2 deactivate s) st l) !! r
  = Some (if decide (r ∈ l.*2) then deactivate n else n).
Proof.
  revert st n. induction l as [|hr l IH]; intros st n H; cbn [foldl fmap list_fmap].
  - rewrite H. by rewrite decide_False by apply not_elem_of_nil.
  - rewrite (IH _ _ (heap_modify hr.2 deactivate st r n H)).
    f_equal. destruct (decide (hr.2 = r)) as [Heq|Hne].
    + rewrite (decide_True (P := r ∈ hr.2 :: l.*2)) by (rewrite Heq; left).
      by case_decide.
    + destruct (decide (r ∈ l.*2)) as [Hin|Hnin].
      * by rewrite decide_True by (by right).
      * rewrite decide_False; [done|]. intros [->|?]%elem_of_cons; done.
Qed.

Lemma filter_active_nil (l : list (Z * nat * Notifier)) :
  Forall (λ e : Z * nat * Notifier, active e.2 = false) l →
  filter (λ e : Z * nat * Notifier, active e.2 = true) l = [].
Proof.
  induction 1 as [|e l He Hl IH]; [done|].
  rewrite filter_cons_False; [done|]. congruence.
Qed.

Lemma num_notifiers_none st :
  (∀ h r n, registered st h r n → active n = false) →
  HALSIM_GetNumNotifiers st = 0.
Proof.
  intros H. unfold HALSIM_GetNumNotifiers. rewrite num_notifiers_fold.
  assert (filter (λ e : Z * nat * Notifier, active e.2 = true) (visited st) = []) as ->.
  { apply filter_active_nil. apply Forall_forall. intros [[h r] n] Hin.
    by apply elem_of_visited, H in Hin. }
  done.
Qed.

Lemma next_timeout_none st :
  (∀ h r n, registered st h r n → ¬ (active n = true ∧ running n = true)) →
  HALSIM_GetNextNotifierTimeout st = UINT64_MAX.
Proof.
  intros H. unfold HALSIM_GetNextNotifierTimeout.
  pose proof (pick_fold_bounds (visited st) UINT64_MAX) as Hp. cbv zeta in Hp.
  destruct Hp as (_ & _ & [Heq|([[h r] n] & Hin & Harm & _)]); [done|].
  apply elem_of_visited in Hin. by destruct (H _ _ _ Hin).
Qed.

(** X6.  The destructor of the container leaves the table as it is and
    clears [active] and [running] of every registered object, keeping its
    other fields and every unregistered object; it notifies each registered
    object's condition variable and, last, the coordinator's.  After it the
    live count is 0, the next timeout is [UINT64_MAX], and every waiter that
    wakes on a registered object returns 0. *)
Theorem teardown_deactivates_every_registered_object (st : Hal) :
  notifierHandles (destroy_container st).1 = notifierHandles st
  ∧ (∀ h r n, registered st h r n →
              registered (destroy_container st).1 h r
                {| name := name n; waitTime := waitTime n; active := false;
                   running := false; count := count n |}
              ∧ NotifyAll r ∈ (destroy_container st).2
              ∧ ∀ d status,
                  wait_step (InWaitFor r d) (destroy_container st).1 status
                  = Some (mkRes (Done 0) (destroy_container st).1 status [Unlock r]))
  ∧ (∀ r, (∀ h, (h, r) ∉ entries st) →
          heap (destroy_container st).1 !! r = heap st !! r)
  ∧ last (destroy_container st).2 = Some NotifyAllWaiter
  ∧ HALSIM_GetNumNotifiers (destroy_container st).1 = 0
  ∧ HALSIM_GetNextNotifierTimeout (destroy_container st).1 = UINT64_MAX.
Proof.
  assert (∀ h r n, registered st h r n →
            registered (destroy_container st).1 h r (deactivate n)) as Hreg.
  { intros h r n (i & Hi & -> & Hn). exists i. cbn. rewrite destroy_handles.
    split; [done|]. split; [done|].
    rewrite (destroy_heap _ _ _ _ Hn). rewrite decide_True; [done|].
    apply list_elem_of_fmap. exists (createHandle i, r). split; [done|].
    apply elem_of_entries. eauto. }
  assert (∀ h r n', registered (destroy_container st).1 h r n' → active n' = false
                    ∧ running n' = false) as Hall.
  { intros h r n' (i & Hi & -> & Hn'). cbn in Hi, Hn'. rewrite destroy_handles in Hi.
    destruct (heap st !! r) as [n|] eqn:Hn.
    - rewrite (destroy_heap _ _ _ _ Hn) in Hn'. rewrite decide_True in Hn'.
      + by injection Hn' as <-.
      + apply list_elem_of_fmap. exists (createHandle i, r). split; [done|].
        apply elem_of_entries. eauto.
    - apply lookup_lt_Some in Hn'. apply lookup_ge_None in Hn.
      assert (length (heap (foldl (λ s hr, modify hr.2 deactivate s) st (entries st)))
              = length (heap st)) as Hlen.
      { generalize (entries st). intros l. clear. revert st.
        induction l as [|hr l IH]; intros st; cbn [foldl]; [done|].
        rewrite IH. cbn. by rewrite length_alter. }
      lia. }
  split; [cbn; apply destroy_handles|]. split; [|split; [|split; [|split]]].
  - intros h r n Hr. split; [by apply Hreg|]. split.
    + cbn. apply elem_of_app. left. apply list_elem_of_In, in_concat.
      destruct Hr as (i & Hi & -> & _).
      exists [Lock r; Unlock r; NotifyAll r]. split; [|cbn; tauto].
      apply list_elem_of_In, list_elem_of_fmap. exists (createHandle i, r).
      split; [done|]. apply elem_of_entries. eauto.
    + intros d status. destruct (Hreg _ _ _ Hr) as (_ & _ & _ & Hn).
      cbn [wait_step]. by rewrite Hn.
  - intros r Hno. cbn. destruct (heap st !! r) as [n|] eqn:Hn.
    + rewrite (destroy_heap _ _ _ _ Hn). rewrite decide_False; [done|].
      intros ([h r'] & -> & Hin)%list_elem_of_fmap. by apply (Hno h).
    + apply lookup_ge_None. apply lookup_ge_None in Hn.
      assert (length (heap (foldl (λ s hr, modify hr.2 deactivate s) st (entries st)))
              = length (heap st)) as ->; [|done].
      generalize (entries st). intros l. clear. revert st.
      induction l as [|hr l IH]; intros st; cbn [foldl]; [done|].
      rewrite IH. cbn. by rewrite length_alter.
  - cbn. by rewrite last_snoc.
  - apply num_notifiers_none. intros h r n Hr. by destruct (Hall _ _ _ Hr).
  - apply next_timeout_none. intros h r n Hr [Ha _].
    destruct (Hall _ _ _ Hr). congruence.
Qed.

(** ** Arming, cancelling and the wait loop together *)

(** X7.  After update-alarm on a known, alive object, the next iteration
    of a wait on it (the entry of a new call or a wake-up) fires at once and
    returns the clock when the deadline is not after the clock, sleeps the
    exact distance to the deadline when it is after the clock and the machine
    is not paused, and takes the 1000 s sleep when the deadline is
    [UINT64_MAX]. *)
Theorem arm_then_wait
    (h d : Z) (st : Hal) (r : nat) (n : Notifier)
    (pc : Pc) (status : Z) (res : Res Pc) :
  Get h st = Some r →
  heap st !! r = Some n →
  active n = true →
  pc_object pc = Some r →
  wait_step pc (post (HAL_UpdateNotifierAlarm h d st 0)) status = Some res →
  (d ≠ UINT64_MAX → d ≤ fpgaTime st → ret res = Done (fpgaTime st))
  ∧ (d ≠ UINT64_MAX → fpgaTime st < d → notifiersPaused st = false →
     ret res = InWaitFor r (MicrosUntil ((d - fpgaTime st) mod 2 ^ 64)))
  ∧ (d = UINT64_MAX → ret res = InWaitFor r Seconds1000).
Proof.
  intros Hget Hobj Ha Hpc Hstep. revert Hstep.
  unfold HAL_UpdateNotifierAlarm. rewrite Hget. cbn [post]. intros Hstep.
  pose proof (heap_modify_eq r (λ n, set_running (negb (d =? UINT64_MAX))
                                      (set_waitTime d n)) st n Hobj) as Hn'.
  destruct (wait_step_iteration _ _ _ _ _ _ Hpc Hn' Hstep) as (_ & Hcase & _).
  cbn in Hcase. split; [|split].
  - intros Hne Hle. apply Z.eqb_neq in Hne. rewrite Hne in Hcase. cbn in Hcase.
    destruct Hcase as [(? & _)|[(_ & _ & _ & ? & _)|(_ & Hnot & _)]];
      [congruence|done|]. by destruct Hnot.
  - intros Hne Hlt Hp. apply Z.eqb_neq in Hne. rewrite Hne in Hcase. cbn in Hcase.
    destruct Hcase as [(? & _)|[(_ & _ & ? & _)|(_ & _ & Hret & _)]];
      [congruence|lia|].
    rewrite Hret. unfold chosen_sleep. cbn. by rewrite Hp.
  - intros ->. rewrite Z.eqb_refl in Hcase. cbn in Hcase.
    destruct Hcase as [(? & _)|[(_ & ? & _)|(_ & _ & Hret & _)]];
      [congruence|done|].
    by rewrite Hret.
Qed.

Lemma arm_then_wait_witness :
  ∃ res, wait_step (InWaitFor 0%nat Seconds1000)
           (post (HAL_UpdateNotifierAlarm (createHandle 0) 90
                    (one_notifier armed_for_50) 0)) 0 = Some res
         ∧ ret res = InWaitFor 0%nat (MicrosUntil ((90 - 0) mod 2 ^ 64)).
Proof.
  eexists. split; [reflexivity|].
  refine (proj1 (proj2 (arm_then_wait (createHandle 0) 90 (one_notifier armed_for_50)
                          0%nat armed_for_50 (InWaitFor 0%nat Seconds1000) 0 _
                          eq_refl eq_refl eq_refl eq_refl eq_refl)) _ _ _);
    by vm_compute.
Defined.

(** X8.  After cancel-alarm on a known, alive object, the next iteration
    of a wait on it does not fire, whatever the deadline, the clock and the
    paused flag are: it takes the 1000 s sleep, and the object is as the
    cancel left it. *)
Theorem cancel_then_wait
    (h : Z) (st : Hal) (r : nat) (n : Notifier) (d0 : Duration) (status : Z) :
  Get h st = Some r →
  heap st !! r = Some n →
  active n = true →
  wait_step (InWaitFor r d0) (post (HAL_CancelNotifierAlarm h st 0)) status
  = Some (mkRes (InWaitFor r Seconds1000) (post (HAL_CancelNotifierAlarm h st 0))
            status [WaitFor r Seconds1000]).
Proof.
  intros Hget Hobj Ha. unfold HAL_CancelNotifierAlarm. rewrite Hget. cbn [post].
  cbn [wait_step]. rewrite (heap_modify_eq r (set_running false) st n Hobj). cbn.
  unfold wait_loop. cbn. by rewrite Ha.
Qed.

Lemma cancel_then_wait_witness :
  wait_step (InWaitFor 0%nat (MicrosUntil 50))
    (post (HAL_CancelNotifierAlarm (createHandle 0) (one_notifier armed_for_50) 0)) 0
  = Some (mkRes (InWaitFor 0%nat Seconds1000)
            (post (HAL_CancelNotifierAlarm (createHandle 0) (one_notifier armed_for_50) 0))
            0 [WaitFor 0%nat Seconds1000]).
Proof.
  exact (cancel_then_wait (createHandle 0) (one_notifier armed_for_50) 0%nat
           armed_for_50 (MicrosUntil 50) 0 eq_refl eq_refl eq_refl).
Defined.

(** X9.  An alarm fires once: after the iteration that returns the sampled
    time, a new wait on the same object, at any later clock, does not fire
    but takes the 1000 s sleep, until the alarm is armed again. *)
Theorem fired_alarm_stays_disarmed
    (st : Hal) (pc : Pc) (r : nat) (status : Z) (res : Res Pc)
    (t : Z) (pc2 : Pc) (status2 : Z) (res2 : Res Pc) :
  fires st pc →
  pc_object pc = Some r →
  wait_step pc st status = Some res →
  pc_object pc2 = Some r →
  wait_step pc2 (run_call (CClock t) (post res)) status2 = Some res2 →
  ret res2 = InWaitFor r Seconds1000.
Proof.
  intros Hf Hpc Hstep Hpc2 Hstep2.
  destruct (fires_object _ _ Hf) as (r' & n & Hpc' & Hn & Ha & Hr & Hd).
  assert (r' = r) as -> by congruence.
  destruct (wait_step_iteration _ _ _ _ _ _ Hpc Hn Hstep)
    as (_ & [(? & _)|[(_ & _ & _ & _ & Hpost)|(_ & Hnot & _)]] & _);
    [congruence| |by destruct Hnot].
  assert (heap (run_call (CClock t) (post res)) !! r
          = Some (set_running false (entered pc n))) as Hn2 by exact Hpost.
  destruct (wait_step_iteration _ _ _ _ _ _ Hpc2 Hn2 Hstep2)
    as (_ & [(Hna & _)|[(_ & Hrun & _)|(_ & _ & Hret & _)]] & _).
  - destruct pc; cbn in Hna; congruence.
  - by cbn in Hrun.
  - rewrite Hret. by unfold chosen_sleep.
Qed.

Lemma fired_alarm_stays_disarmed_witness :
  ∃ res res2,
    wait_step (AtLock 0%nat) (run_call (CClock 55) armed_for_40) 0 = Some res
    ∧ wait_step (AtLock 0%nat) (run_call (CClock 99) (post res)) 0 = Some res2
    ∧ ret res2 = InWaitFor 0%nat Seconds1000.
Proof.
  eexists _, _. split; [reflexivity|]. split; [reflexivity|].
  refine (fired_alarm_stays_disarmed (run_call (CClock 55) armed_for_40)
            (AtLock 0%nat) 0%nat 0 _ 99 (AtLock 0%nat) 0 _ _ eq_refl eq_refl
            eq_refl eq_refl).
  cbn. eexists. split; [reflexivity|]. by repeat split.
Defined.

(** X10.  The sleep computed from the deadline does not wrap: when an
    iteration goes to sleep until its deadline, the object is armed, the
    machine is not paused, the duration is positive and equals the deadline
    minus the sampled clock, and an iteration run once the clock has moved
    by that duration fires. *)
Theorem sleep_reaches_the_deadline
    (st : Hal) (pc : Pc) (r : nat) (n : Notifier) (status : Z) (res : Res Pc)
    (us : Z) (status2 : Z) (res2 : Res Pc) :
  pc_object pc = Some r →
  heap st !! r = Some n →
  uint64 (waitTime n) →
  0 ≤ fpgaTime st →
  wait_step pc st status = Some res →
  ret res = InWaitFor r (MicrosUntil us) →
  wait_step (InWaitFor r (MicrosUntil us))
    (run_call (CClock (fpgaTime st + us)) (post res)) status2 = Some res2 →
  running n = true ∧ notifiersPaused st = false
  ∧ 0 < us ∧ fpgaTime st + us = waitTime n
  ∧ ret res2 = Done (waitTime n).
Proof.
  intros Hpc Hn [Hw0 Hw1] Ht Hstep Hret Hstep2.
  destruct (wait_step_iteration _ _ _ _ _ _ Hpc Hn Hstep)
    as (_ & [(_ & ? & _)|[(_ & _ & _ & ? & _)|(Ha & Hnot & Hr & Hpost)]]
          & _ & _ & _ & Htime); try congruence.
  rewrite Hr in Hret. injection Hret as Hsleep. unfold chosen_sleep in Hsleep.
  destruct (running n) eqn:Hrun; cbn in Hsleep; [|done].
  destruct (notifiersPaused st) eqn:Hp; [done|]. injection Hsleep as Hus.
  assert (fpgaTime st < waitTime n) as Hlt.
  { destruct (Z.le_gt_cases (waitTime n) (fpgaTime st)); [|lia]. by destruct Hnot. }
  rewrite Z.mod_small in Hus by (unfold UINT64_MAX in Hw1; lia).
  split; [done|]. split; [done|]. split; [lia|]. split; [lia|].
  assert (heap (run_call (CClock (fpgaTime st + us)) (post res)) !! r
          = Some (entered pc n)) as Hn2 by exact Hpost.
  assert (fpgaTime (run_call (CClock (fpgaTime st + us)) (post res)) = waitTime n) as Ht2.
  { cbn. rewrite Htime. lia. }
  destruct (wait_step_iteration (InWaitFor r (MicrosUntil us)) r _ _ _ _
              eq_refl Hn2 Hstep2)
    as (_ & [(Hna & _)|[(_ & _ & _ & Hret2 & _)|(_ & Hnot2 & _)]] & _).
  - destruct pc; cbn in Hna; congruence.
  - by rewrite Hret2, Ht2.
  - destruct Hnot2. rewrite Ht2. destruct pc; cbn; split; (done || lia).
Qed.

Lemma sleep_reaches_the_deadline_witness :
  ∃ res res2,
    wait_step (AtLock 0%nat) (one_notifier armed_for_50) 0 = Some res
    ∧ wait_step (InWaitFor 0%nat (MicrosUntil 50))
        (run_call (CClock (0 + 50)) (post res)) 0 = Some res2
    ∧ 0 < 50 ∧ 0 + 50 = waitTime armed_for_50
    ∧ ret res2 = Done (waitTime armed_for_50).
Proof.
  eexists _, _. split; [reflexivity|]. split; [reflexivity|].
  refine (proj2 (proj2 (sleep_reaches_the_deadline (one_notifier armed_for_50)
                          (AtLock 0%nat) 0%nat armed_for_50 0 _ 50 0 _
                          eq_refl eq_refl _ _ eq_refl eq_refl eq_refl)));
    by vm_compute.
Defined.

Lemma run_calls_inactive (cs : list Call) st r n :
  heap st !! r = Some n → active n = false →
  ∃ n', heap (run_calls cs st) !! r = Some n' ∧ active n' = false.
Proof.
  intros Hn Ha. induction cs as [|c cs IH] using rev_ind; [by exists n|].
  destruct IH as (n1 & Hn1 & Ha1). rewrite run_calls_snoc.
  destruct (run_call_object c _ _ _ Hn1) as (n' & Hn' & Hact & _).
  exists n'. split; [done|]. destruct (active n'); [|done].
  specialize (Hact eq_refl). congruence.
Qed.

(** X11.  A stopped or freed object stays dead: whatever calls follow
    (arming it again through a handle that still names it included), every
    iteration of a wait on it returns 0. *)
Theorem stopped_notifier_only_returns_zero
    (cs : list Call) (st : Hal) (r : nat) (n : Notifier)
    (pc : Pc) (status : Z) (res : Res Pc) :
  heap st !! r = Some n →
  active n = false →
  pc_object pc = Some r →
  wait_step pc (run_calls cs st) status = Some res →
  ret res = Done 0.
Proof.
  intros Hn Ha Hpc Hstep.
  destruct (run_calls_inactive cs _ _ _ Hn Ha) as (n' & Hn' & Ha').
  destruct (wait_step_iteration _ _ _ _ _ _ Hpc Hn' Hstep)
    as (_ & [(_ & ? & _)|[(? & _)|(? & _)]] & _); congruence.
Qed.

Lemma stopped_notifier_only_returns_zero_witness :
  ∃ res, wait_step (AtLock 0%nat)
           (run_calls [CUpdate (createHandle 0) 5; CClock 9]
              (run_calls [CInitialize; CStop (createHandle 0)] empty_hal)) 0
         = Some res
         ∧ ret res = Done 0.
Proof.
  eexists. split; [reflexivity|].
  exact (stopped_notifier_only_returns_zero [CUpdate (createHandle 0) 5; CClock 9]
           (run_calls [CInitialize; CStop (createHandle 0)] empty_hal) 0%nat _
           (AtLock 0%nat) 0 _ eq_refl eq_refl eq_refl eq_refl).
Defined.

(** ** The barrier and the other calls *)

Lemma incr64_moves x : uint64 x → incr64 x ≠ x.
Proof.
  unfold uint64, incr64, UINT64_MAX. intros Hx.
  destruct (decide (x = 2 ^ 64 - 1)) as [->|Hne]; [by vm_compute|].
  rewrite Z.mod_small by lia. lia.
Qed.

(** X12.  An entry of the barrier stops being waited for as soon as a wait
    call on its object runs its entry step (the wake count moves off the
    recorded value, also across the wrap), or the handle is stopped, or it
    is freed. *)
Theorem barrier_entry_is_released
    (h : Z) (st : Hal) (r : nat) (n : Notifier) (c : Z) :
  Get h st = Some r →
  heap st !! r = Some n →
  uint64 (count n) →
  still_pending (run_call (CWaitStep (AtLock r)) st) (h, count n) = false
  ∧ still_pending (run_call (CStop h) st) (h, c) = false
  ∧ still_pending (run_call (CClean h) st) (h, c) = false.
Proof.
  intros Hget Hobj Hc. split; [|split].
  - destruct (run_call_object (CWaitStep (AtLock r)) st r n Hobj) as (n' & Hn' & _ & Hcnt).
    cbn [begins_wait] in Hcnt. rewrite bool_decide_eq_true_2 in Hcnt by done.
    unfold still_pending. cbn [fst snd].
    assert (Get h (run_call (CWaitStep (AtLock r)) st) = Some r) as ->.
    { rewrite <- Hget. unfold Get. f_equal.
      cbn [run_call wait_step]. rewrite Hobj. cbn. by rewrite wait_loop_handles. }
    rewrite Hn'. apply andb_false_iff. right. apply Z.eqb_neq. rewrite Hcnt.
    by apply incr64_moves.
  - cbn [run_call]. unfold HAL_StopNotifier. rewrite Hget. cbn [post].
    unfold still_pending. cbn [fst snd]. rewrite Get_modify, Hget.
    by rewrite (heap_modify_eq r deactivate st n Hobj).
  - cbn [run_call]. unfold still_pending. cbn [fst snd].
    by rewrite Get_after_Clean.
Qed.

Lemma barrier_entry_is_released_witness :
  still_pending (run_call (CWaitStep (AtLock 0%nat)) armed_unwaited)
    (createHandle 0, 0) = false.
Proof.
  exact (proj1 (barrier_entry_is_released (createHandle 0) armed_unwaited 0%nat _ 7
                  eq_refl eq_refl ltac:(by vm_compute))).
Defined.

(** X13.  Arming, cancelling, naming, pause, resume, wake-up, the clock and
    the steps of a wait call other than its entry never release an entry of
    the barrier nor revive one: whether an entry is still waited for is the
    same before and after.  In particular an alarm that fires does not
    release the barrier until its owner enters the wait again. *)
Theorem barrier_entry_outlives_other_calls (c : Call) (st : Hal) (it : Z * Z) :
  keeps_generation c →
  still_pending (run_call c st) it = still_pending st it.
Proof.
  intros Hc.
  assert (∀ r' f, (∀ m, active (f m) = active m ∧ count (f m) = count m) →
                  still_pending (modify r' f st) it = still_pending st it) as Hmod.
  { intros r' f Hf. unfold still_pending. rewrite Get_modify.
    destruct (Get it.1 st) as [r|]; [|done].
    destruct (heap st !! r) as [n|] eqn:Hn.
    - rewrite (heap_modify _ _ _ _ _ Hn). case_decide; [|done].
      by destruct (Hf n) as [-> ->].
    - cbn. destruct (decide (r' = r)) as [->|Hne].
      + by rewrite list_lookup_alter_eq, Hn.
      + by rewrite list_lookup_alter_ne, Hn. }
  destruct c as [|h s|h|h|h t|h| | | | |pc|t]; cbn in Hc; try done; cbn [run_call].
  - unfold HAL_SetNotifierName. destruct (Get h st); cbn [post]; [|done]. by apply Hmod.
  - unfold HAL_UpdateNotifierAlarm. destruct (Get h st); cbn [post]; [|done].
    by apply Hmod.
  - unfold HAL_CancelNotifierAlarm. destruct (Get h st); cbn [post]; [|done].
    by apply Hmod.
  - destruct pc as [h|r'|r' d|v]; try done; cbn [wait_step].
    + by destruct (Get h st).
    + destruct (heap st !! r') as [m|] eqn:Hm; cbn; [|done].
      unfold wait_loop. repeat case_match; cbn [post]; try done. by apply Hmod.
Qed.

Lemma barrier_entry_outlives_other_calls_witness :
  still_pending (run_call (CWaitStep (InWaitFor 0%nat Seconds1000))
                   (run_call (CClock 600) armed_unwaited)) (createHandle 0, 0)
  = still_pending (run_call (CClock 600) armed_unwaited) (createHandle 0, 0).
Proof.
  exact (barrier_entry_outlives_other_calls
           (CWaitStep (InWaitFor 0%nat Seconds1000))
           (run_call (CClock 600) armed_unwaited) (createHandle 0, 0) I).
Defined.

(** The barrier returns at once on an empty vector. *)
Lemma barrier_round_nil st : barrier_round st [] = BDone.
Proof. reflexivity. Qed.

(** X14.  The barrier returns without blocking when no registered object
    is armed and either never waited on or due.  In a table within its
    limit it blocks when some registered object is alive, armed and either
    never waited on or due, and its vector then holds that object's handle
    with its wake count. *)
Theorem barrier_blocks_only_for_due_alarms (st : Hal) :
  ((∀ h r n, registered st h r n → due (fpgaTime st) n = false) →
   (WakeupWaitNotifiers_begin st).1 = BDone)
  ∧ (table_bounded st →
     ∀ h r n, registered st h r n → active n = true →
              due (fpgaTime st) n = true →
              ∃ ws, (WakeupWaitNotifiers_begin st).1 = BWaitFor ws
                    ∧ (h, count n) ∈ ws).
Proof.
  split.
  - intros Hnone. unfold WakeupWaitNotifiers_begin. cbn [fst].
    assert (collect_waiters st = []) as ->; [|apply barrier_round_nil].
    destruct (collect_waiters st) as [|[h c] l] eqn:Hc; [done|].
    assert ((h, c) ∈ collect_waiters st) as Hin by (rewrite Hc; left).
    apply elem_of_collect_waiters in Hin as (r & n & Hreg & Hr & Hd & _).
    specialize (Hnone _ _ _ Hreg).
    by rewrite (proj2 (due_spec _ _) (conj Hr Hd)) in Hnone.
  - intros Hb h r n Hreg Ha Hdue. unfold WakeupWaitNotifiers_begin. cbn [fst].
    assert ((h, count n) ∈ collect_waiters st) as Hin.
    { apply elem_of_collect_waiters. apply due_spec in Hdue as [? ?]. eauto 10. }
    assert (still_pending st (h, count n) = true) as Hp.
    { unfold still_pending. cbn [fst snd]. rewrite (registered_Get _ _ _ _ Hb Hreg).
      destruct Hreg as (_ & _ & _ & ->). by rewrite Ha, Z.eqb_refl. }
    pose proof (barrier_round_spec st (collect_waiters st)) as Hr. cbv zeta in Hr.
    destruct (barrier_round st (collect_waiters st)) as [ws|].
    + exists ws. split; [done|]. destruct Hr as [Hperm _]. rewrite Hperm.
      by apply list_elem_of_filter.
    + assert ((h, count n) ∈ filter (λ it, still_pending st it = true)
                                    (collect_waiters st)) as Hf
        by by apply list_elem_of_filter.
      rewrite Hr in Hf. by apply elem_of_nil in Hf.
Qed.

Lemma barrier_blocks_only_for_due_alarms_witness :
  ∃ ws, (WakeupWaitNotifiers_begin two_created).1 = BWaitFor ws
        ∧ (createHandle 1, 0) ∈ ws.
Proof.
  exact (proj2 (barrier_blocks_only_for_due_alarms two_created) two_created_bounded
           (createHandle 1) 1%nat _
           (ex_intro _ 1%nat (conj eq_refl (conj eq_refl eq_refl)))
           eq_refl eq_refl).
Defined.

(** ** The simulator's queries and the other calls *)

(** X15.  Where every armed object holds a deadline other than
    [UINT64_MAX] (as in every reachable state), next-timeout returns
    [UINT64_MAX] exactly when no registered object is both alive and armed:
    the value is never mistaken for a deadline. *)
Theorem next_timeout_sentinel_means_none_armed (st : Hal) :
  Forall object_sound (heap st) →
  HALSIM_GetNextNotifierTimeout st = UINT64_MAX
  ↔ ∀ h r n, registered st h r n → ¬ (active n = true ∧ running n = true).
Proof.
  intros Hs. split; [|apply next_timeout_none].
  intros Heq h r n Hreg [Ha Hr].
  pose proof (pick_fold_bounds (visited st) UINT64_MAX) as Hp. cbv zeta in Hp.
  destruct Hp as (_ & Hmin & _).
  apply elem_of_visited in Hreg as Hin. specialize (Hmin _ Hin (conj Ha Hr)).
  cbn in Hmin. unfold HALSIM_GetNextNotifierTimeout in Heq. rewrite Heq in Hmin.
  destruct Hreg as (_ & _ & _ & Hn). rewrite Forall_forall in Hs.
  apply list_elem_of_lookup_2, Hs in Hn as ([_ Hle] & _ & Hne).
  specialize (Hne Hr). lia.
Qed.

Lemma one_armed_sound : Forall object_sound (heap (one_notifier armed_for_50)).
Proof.
  constructor; [|constructor]. unfold object_sound, uint64, UINT64_MAX. cbn.
  repeat split; (lia || done).
Defined.

Lemma next_timeout_sentinel_means_none_armed_witness :
  HALSIM_GetNextNotifierTimeout (one_notifier armed_for_50) = UINT64_MAX
  ↔ ∀ h r n, registered (one_notifier armed_for_50) h r n →
             ¬ (active n = true ∧ running n = true).
Proof.
  exact (next_timeout_sentinel_means_none_armed (one_notifier armed_for_50)
           one_armed_sound).
Defined.

(** X16.  After update-alarm arms a known, alive object for a deadline
    [d] other than [UINT64_MAX], next-timeout is at most [d], whatever the
    other objects hold. *)
Theorem arming_bounds_the_next_timeout
    (h d : Z) (st : Hal) (r : nat) (n : Notifier) :
  Get h st = Some r →
  heap st !! r = Some n →
  active n = true →
  d ≠ UINT64_MAX →
  HALSIM_GetNextNotifierTimeout (post (HAL_UpdateNotifierAlarm h d st 0)) ≤ d.
Proof.
  intros Hget Hobj Ha Hd.
  set (st1 := post (HAL_UpdateNotifierAlarm h d st 0)).
  assert (Get h st1 = Some r) as Hget1.
  { unfold st1, HAL_UpdateNotifierAlarm. rewrite Hget. cbn [post].
    by rewrite Get_modify. }
  assert (heap st1 !! r
          = Some (set_running (negb (d =? UINT64_MAX)) (set_waitTime d n))) as Hn1.
  { unfold st1, HAL_UpdateNotifierAlarm. rewrite Hget. cbn [post].
    exact (heap_modify_eq r (λ n, set_running (negb (d =? UINT64_MAX))
                                    (set_waitTime d n)) st n Hobj). }
  pose proof (Get_registered _ _ _ _ Hget1 Hn1) as Hreg.
  apply elem_of_visited in Hreg.
  pose proof (pick_fold_bounds (visited st1) UINT64_MAX) as Hp. cbv zeta in Hp.
  destruct Hp as (_ & Hmin & _). specialize (Hmin _ Hreg). cbn in Hmin.
  apply Hmin. split; [done|]. apply Z.eqb_neq in Hd. by rewrite Hd.
Qed.

Lemma arming_bounds_the_next_timeout_witness :
  HALSIM_GetNextNotifierTimeout
    (post (HAL_UpdateNotifierAlarm (createHandle 0) 20 two_created 0)) ≤ 20.
Proof.
  refine (arming_bounds_the_next_timeout (createHandle 0) 20 two_created 0%nat _
            eq_refl eq_refl eq_refl _).
  by vm_compute.
Defined.

Lemma length_omap_le {A B} (f : A → option B) (l : list A) :
  (length (omap f l) ≤ length l)%nat.
Proof.
  induction l as [|x l IH]; cbn; [done|]. destruct (f x); cbn; lia.
Qed.

Lemma length_filter_le {A} (P : A → Prop) `{∀ x, Decision (P x)} (l : list A) :
  (length (filter P l) ≤ length l)%nat.
Proof.
  induction l as [|x l IH]; [done|].
  destruct (decide (P x)).
  - rewrite filter_cons_True by done. cbn. lia.
  - rewrite filter_cons_False by done. cbn. lia.
Qed.

(** X17.  The live count is between 0 and the number of slots of the
    table, so that in a table within its limit it is at most [INT16_MAX]:
    the [int32_t] counters of the two counting loops cannot overflow. *)
Theorem live_count_is_bounded_by_the_table (st : Hal) :
  0 ≤ HALSIM_GetNumNotifiers st ≤ Z.of_nat (length (notifierHandles st))
  ∧ (table_bounded st → HALSIM_GetNumNotifiers st ≤ INT16_MAX)
  ∧ ∀ nameSize arr size,
      0 ≤ (HALSIM_GetNotifierInfo nameSize arr size st).2
        ≤ Z.of_nat (length (notifierHandles st)).
Proof.
  assert (length (filter (λ e : Z * nat * Notifier, active e.2 = true) (visited st))
          ≤ length (notifierHandles st))%nat as Hlen.
  { etrans; [apply length_filter_le|]. unfold visited.
    etrans; [apply length_omap_le|]. unfold entries.
    etrans; [apply length_omap_le|]. by rewrite length_imap. }
  assert (0 ≤ HALSIM_GetNumNotifiers st ≤ Z.of_nat (length (notifierHandles st))) as Hn.
  { unfold HALSIM_GetNumNotifiers. rewrite num_notifiers_fold. lia. }
  split; [done|]. split; [unfold table_bounded; lia|].
  intros nameSize arr size. unfold HALSIM_GetNotifierInfo.
  pose proof (put_fold nameSize size (visited st) arr 0) as H. cbv zeta in H.
  destruct H as [-> _]. lia.
Qed.

(** ** Pause, resume and wake-up (lines 73-84) *)

(** X18.  Resume undoes pause: on a machine that is not paused, pause
    followed by resume gives the machine back.  Pause twice is pause once.
    Wake-up and resume change no object and notify the condition variables
    of exactly the registered objects, once per slot, and never the
    coordinator's. *)
Theorem resume_undoes_pause (st : Hal) :
  notifiersPaused st = false →
  (ResumeNotifiers (PauseNotifiers st).1).1 = st
  ∧ (PauseNotifiers (PauseNotifiers st).1).1 = (PauseNotifiers st).1
  ∧ (WakeupNotifiers st).1 = st
  ∧ (ResumeNotifiers st).2 = (WakeupNotifiers st).2
  ∧ length (WakeupNotifiers st).2 = length (entries st)
  ∧ (NotifyAllWaiter ∉ (WakeupNotifiers st).2)
  ∧ (∀ r, NotifyAll r ∈ (WakeupNotifiers st).2
          ↔ ∃ i : nat, notifierHandles st !! i = Some (Some r)).
Proof.
  intros Hp. split; [|split; [|split; [|split; [|split; [|split]]]]]; try done.
  - destruct st as [hp hs p t]. cbn in Hp. subst p. done.
  - cbn. by rewrite length_fmap.
  - cbn. intros ([h r] & [=] & _)%list_elem_of_fmap.
  - intros r. cbn. rewrite list_elem_of_fmap. split.
    + intros ([h r'] & [= ->] & Hin). apply elem_of_entries in Hin as (i & Hi & _).
      eauto.
    + intros (i & Hi). exists (createHandle i, r). split; [done|].
      apply elem_of_entries. eauto.
Qed.

Lemma resume_undoes_pause_witness :
  (ResumeNotifiers (PauseNotifiers two_created).1).1 = two_created
  ∧ length (WakeupNotifiers two_created).2 = length (entries two_created).
Proof.
  pose proof (resume_undoes_pause two_created eq_refl) as (H1 & _ & _ & _ & H5 & _).
  split; [exact H1|exact H5].
Defined.
